(** * Unused-JavaScript audit: a shallow embedding of
      [core/audits/byte-efficiency/unused-javascript.js]

    The development follows the source file top to bottom: the JavaScript
    values it manipulates (numbers, strings), the two string helpers
    [commonPrefix] and [trimCommonPrefix], and the body of
    [UnusedJavaScript.audit_], one iteration of its [for] loop at a time.

    Modelling conventions.
    - A JavaScript number is an exact rational or one of the three
      non-finite values.  Binary64 rounding error and the sign of zero are
      not represented.
    - A JavaScript string is the list of its UTF-16 code units.
    - Byte counts handed over by the collaborators of the audit (waste
      summaries, transfer-size estimates, bundle sizes) are natural numbers.
    - Every awaited request resolves; a rejected request aborts the audit
      and is outside the model. *)

From Stdlib Require Import String Ascii.
From Stdlib Require Import ZArith NArith QArith Qround Qreduction Qabs Lqa.
From Stdlib Require Import List Bool Lia Sorted Permutation.
From Stdlib Require Qcanon.
From Equations Require Import Equations.
Import ListNotations.

Set Implicit Arguments.

(* ===================================================================== *)
(** * JavaScript numbers *)
(* ===================================================================== *)

Inductive number : Type :=
| Num (q : Q)
| PosInfinity
| NegInfinity
| NaN.

Definition num_of_Z (z : Z) : number := Num (inject_Z z).
Definition num_of_N (n : N) : number := num_of_Z (Z.of_N n).

(** [ToNumber] of a possibly [undefined] byte count: [undefined] is [NaN]. *)
Definition num_of_undefined (o : option N) : number :=
  match o with
  | Some n => num_of_N n
  | None => NaN
  end.

Definition Qsign (q : Q) : comparison := Qcompare q 0.

(** [a / b] *)
Definition num_div (a b : number) : number :=
  match a, b with
  | NaN, _ | _, NaN => NaN
  | Num x, Num y =>
      match Qsign y with
      | Eq => match Qsign x with
              | Eq => NaN
              | Gt => PosInfinity
              | Lt => NegInfinity
              end
      | _ => Num (Qred (x / y))
      end
  | Num _, (PosInfinity | NegInfinity) => Num 0
  | PosInfinity, Num y =>
      match Qsign y with Lt => NegInfinity | _ => PosInfinity end
  | NegInfinity, Num y =>
      match Qsign y with Lt => PosInfinity | _ => NegInfinity end
  | (PosInfinity | NegInfinity), (PosInfinity | NegInfinity) => NaN
  end.

(** [a * b] *)
Definition num_mul (a b : number) : number :=
  match a, b with
  | NaN, _ | _, NaN => NaN
  | Num x, Num y => Num (Qred (x * y))
  | Num x, PosInfinity | PosInfinity, Num x =>
      match Qsign x with Eq => NaN | Gt => PosInfinity | Lt => NegInfinity end
  | Num x, NegInfinity | NegInfinity, Num x =>
      match Qsign x with Eq => NaN | Gt => NegInfinity | Lt => PosInfinity end
  | PosInfinity, PosInfinity | NegInfinity, NegInfinity => PosInfinity
  | PosInfinity, NegInfinity | NegInfinity, PosInfinity => NegInfinity
  end.

(** [a + b] *)
Definition num_add (a b : number) : number :=
  match a, b with
  | NaN, _ | _, NaN => NaN
  | Num x, Num y => Num (Qred (x + y))
  | PosInfinity, NegInfinity | NegInfinity, PosInfinity => NaN
  | PosInfinity, _ | _, PosInfinity => PosInfinity
  | NegInfinity, _ | _, NegInfinity => NegInfinity
  end.

(** [a <= b]; any comparison with [NaN] is [false]. *)
Definition num_le (a b : number) : bool :=
  match a, b with
  | NaN, _ | _, NaN => false
  | Num x, Num y => Qle_bool x y
  | NegInfinity, _ => true
  | _, PosInfinity => true
  | _, _ => false
  end.

(** [a >= b] *)
Definition num_ge (a b : number) : bool := num_le b a.

(** [Math.round]: the nearest integer, a tie going towards +Infinity. *)
Definition Math_round (a : number) : number :=
  match a with
  | Num q => num_of_Z (Qfloor (q + (1 # 2)))
  | other => other
  end.

(** [a || 0] on numbers: the falsy numbers are zero and [NaN]. *)
Definition num_or_zero (a : number) : number :=
  match a with
  | NaN => num_of_Z 0
  | Num q => match Qsign q with Eq => num_of_Z 0 | _ => a end
  | other => other
  end.

(* ===================================================================== *)
(** * JavaScript strings *)
(* ===================================================================== *)

Definition code_unit := N.
Definition jsstring := list code_unit.

(** An ASCII literal as a JavaScript string. *)
Definition js (s : string) : jsstring :=
  List.map N_of_ascii (list_ascii_of_string s).

(** [a === b] on strings. *)
Fixpoint str_eqb (a b : jsstring) : bool :=
  match a, b with
  | [], [] => true
  | x :: a', y :: b' => (x =? y)%N && str_eqb a' b'
  | _, _ => false
  end.

(** [a > b] on strings: code units are compared left to right and a proper
    prefix is smaller than its extensions. *)
Fixpoint str_gt (a b : jsstring) : bool :=
  match a, b with
  | [], _ => false
  | _ :: _, [] => true
  | x :: a', y :: b' =>
      if (y <? x)%N then true
      else if (x <? y)%N then false
      else str_gt a' b'
  end.

(** [s.startsWith(p)] *)
Fixpoint startsWith (s p : jsstring) {struct p} : bool :=
  match p, s with
  | [], _ => true
  | _ :: _, [] => false
  | c :: p', d :: s' => (c =? d)%N && startsWith s' p'
  end.

(** [s.slice(0, -1)] *)
Definition slice_0_m1 (s : jsstring) : jsstring := removelast s.

(** [s.slice(n)] *)
Definition slice_from (n : nat) (s : jsstring) : jsstring := skipn n s.

(** [xs.reduce(f)] without an initial value, on a non-empty array; on the
    empty array JavaScript throws, which [None] records. *)
Definition reduce {A : Type} (f : A -> A -> A) (xs : list A) : option A :=
  match xs with
  | [] => None
  | x :: rest => Some (fold_left f rest x)
  end.

(* ===================================================================== *)
(** * [commonPrefix] and [trimCommonPrefix] *)
(* ===================================================================== *)

Definition inspect {A : Type} (a : A) : {b : A | a = b} := exist _ a eq_refl.

(** The [while] loop of [commonPrefix]:
    [while (!maxWord.startsWith(prefix)) prefix = prefix.slice(0, -1);] *)
Equations? shorten (maxWord prefix : jsstring) : jsstring
  by wf (length prefix) lt :=
  shorten maxWord prefix with inspect (startsWith maxWord prefix) => {
    | exist _ true _ => prefix
    | exist _ false Hloop => shorten maxWord (slice_0_m1 prefix) }.
Proof.
  destruct prefix as [|c prefix'] using rev_ind.
  - destruct maxWord; discriminate Hloop.
  - unfold slice_0_m1. rewrite removelast_last, length_app. simpl. lia.
Qed.

Definition commonPrefix (strings : list jsstring) : jsstring :=
  if (length strings =? 0)%nat then []
  else
    match reduce (fun a b => if str_gt a b then a else b) strings,
          reduce (fun a b => if str_gt a b then b else a) strings with
    | Some maxWord, Some prefix => shorten maxWord prefix
    | _, _ => [] (* [reduce] throws on an empty array only, excluded above *)
    end.

(** The ellipsis character U+2026. *)
Definition ellipsis : jsstring := [8230%N].

Definition trimCommonPrefix (s commonPrefix : jsstring) : jsstring :=
  match commonPrefix with
  | [] => s
  | _ :: _ =>
      if startsWith s commonPrefix
      then ellipsis ++ slice_from (length commonPrefix) s
      else s
  end.

(* ===================================================================== *)
(** * Data model *)
(* ===================================================================== *)

Definition UNUSED_BYTES_IGNORE_THRESHOLD : number := num_of_Z (20 * 1024).
Definition UNUSED_BYTES_IGNORE_BUNDLE_SOURCE_THRESHOLD : number := num_of_Z 512.

(** An element of [artifacts.Scripts]. *)
Module Script.
Record t := mk { scriptId : jsstring; url : jsstring }.
End Script.

(** A classified entity.  The audit keys a [Map] by the entity object
    itself, so the object's identity is part of the model: [ref] is the
    address of the object, and two entities are the same key exactly when
    their addresses agree. *)
Module Entity.
Record t := mk { ref : positive; name : jsstring; homepage : option jsstring }.
End Entity.

(** [bundle.sizes]: either the error marker or the computed sizes. *)
Inductive Sizes :=
| SizesError (errorMessage : jsstring)
| SizesOk (files : list (jsstring * N)) (unmappedBytes : N).

(** A bundle: [script] stands for [bundle.script.scriptId] and
    [sourceURLs] for the result of [bundle.map.sourceURLs()]. *)
Module Bundle.
Record t := mk { script : jsstring; sizes : Sizes; sourceURLs : list jsstring }.
End Bundle.

(** The waste summary of one script.  [sourcesWastedBytes], when present,
    is given as [Object.entries] enumerates it. *)
Module Summary.
Record t := mk {
  totalBytes : N;
  wastedBytes : N;
  wastedPercent : number;
  sourcesWastedBytes : option (list (jsstring * N)) }.
End Summary.

Module SubItem.
Record t := mk { source : jsstring; sourceBytes : number; sourceWastedBytes : number }.
End SubItem.

(** A row of the report; [entity] and [subItems] may be [undefined]. *)
Module Item.
Record t := mk {
  url : jsstring;
  totalBytes : number;
  wastedBytes : number;
  wastedPercent : number;
  entity : option jsstring;
  subItems : option (list SubItem.t) }.
End Item.

(** An entity group.  [text] and [href] are the fields of its [url] link;
    the constant fields [type: 'link'] and [groupBy: 'entity'] are left
    out.  [wastedPercent] is absent on a freshly made group. *)
Module Group.
Record t := mk {
  text : jsstring;
  href : jsstring;
  entity : jsstring;
  wastedBytes : number;
  totalBytes : number;
  wastedPercent : option number }.
End Group.

(** [context.options] *)
Module Options.
Record t := mk {
  unusedThreshold : option number;
  bundleSourceUnusedThreshold : option number }.
End Options.

(** The value the audit resolves to (the constant [headings] left out). *)
Module Product.
Record t := mk { items : list Item.t; groups : list Group.t }.
End Product.

(** What one iteration of the [for] loop does: it leaves through one of the
    four [continue] statements placed before [items.push], or it pushes an
    item, which then also feeds the entity group of [classifiedEntity]. *)
Inductive outcome :=
| Continue_no_script
| Continue_no_networkRecord
| Continue_empty_summary
| Continue_below_threshold (item : Item.t)
| Pushed (item : Item.t) (classifiedEntity : option Entity.t).

(** The two local variables the loop mutates. *)
Record LoopState := mkState {
  byEntity : list (option Entity.t * Group.t);
  items : list Item.t }.

(* ===================================================================== *)
(** * A [Map] keyed by entity objects *)
(* ===================================================================== *)

(** Key equality of the [Map]: the same object, or [undefined] twice. *)
Definition same_key (a b : option Entity.t) : bool :=
  match a, b with
  | None, None => true
  | Some x, Some y => Pos.eqb (Entity.ref x) (Entity.ref y)
  | _, _ => false
  end.

(** [m.get(k)] *)
Fixpoint Map_get (m : list (option Entity.t * Group.t)) (k : option Entity.t)
  : option Group.t :=
  match m with
  | [] => None
  | (k', v) :: rest => if same_key k' k then Some v else Map_get rest k
  end.

(** [m.set(k, v)]: an existing key keeps its place, a new key goes last. *)
Fixpoint Map_set (m : list (option Entity.t * Group.t)) (k : option Entity.t)
  (v : Group.t) : list (option Entity.t * Group.t) :=
  match m with
  | [] => [(k, v)]
  | (k', v') :: rest =>
      if same_key k' k then (k', v) :: rest else (k', v') :: Map_set rest k v
  end.

(** [[...m.values()]] *)
Definition Map_values (m : list (option Entity.t * Group.t)) : list Group.t :=
  List.map snd m.

(* ===================================================================== *)
(** * Sorting *)
(* ===================================================================== *)

(** [Array.prototype.sort] is stable; with a comparator that is a
    difference of numbers its result is the stable sorted arrangement,
    which insertion from the right computes. *)
Section Sort.
Variable A : Type.
Variable compareFn : A -> A -> Z.

Fixpoint sort_insert (x : A) (l : list A) : list A :=
  match l with
  | [] => [x]
  | y :: rest =>
      if (compareFn x y <=? 0)%Z then x :: l else y :: sort_insert x rest
  end.

Definition Array_sort (l : list A) : list A := fold_right sort_insert [] l.
End Sort.

(** [obj[key]] on an object given by its entries. *)
Fixpoint Object_get (o : list (jsstring * N)) (key : jsstring) : option N :=
  match o with
  | [] => None
  | (k, v) :: rest => if str_eqb k key then Some v else Object_get rest key
  end.

(** An element of [topUnusedSourceSizes]. *)
Module SourceSize.
Record t := mk { source : jsstring; unused : number; total : number }.
End SourceSize.

(* ===================================================================== *)
(** * [UnusedJavaScript.audit_] *)
(* ===================================================================== *)

Section Audit.
(** Network records and per-script coverage are opaque to the audit. *)
Variables NetworkRecord ScriptCoverage : Type.

(** The inputs of one run: the collaborators the audit calls
    ([getRequestForScript] already applied to [networkRecords],
    [ByteEfficiencyAudit.estimateTransferSize] to the resource type
    ['Script']), the values of the two requests awaited before the loop
    ([bundles], [classifiedEntities.byURL]), the artifacts
    ([JsUsage] as [Object.entries] enumerates it) and [context.options]. *)
Record Env := mkEnv {
  getRequestForScript : Script.t -> option NetworkRecord;
  estimateTransferSize : NetworkRecord -> N -> N;
  UnusedJavascriptSummary_request :
    jsstring -> ScriptCoverage -> option Bundle.t -> Summary.t;
  bundles : list Bundle.t;
  classifiedEntities_byURL : jsstring -> option Entity.t;
  JsUsage : list (jsstring * ScriptCoverage);
  Scripts : list Script.t;
  options : option Options.t }.

Variable env : Env.

(** [const {unusedThreshold = ..., bundleSourceUnusedThreshold = ...}
     = context.options || {};] *)
Definition unusedThreshold : number :=
  match options env with
  | Some o =>
      match Options.unusedThreshold o with
      | Some t => t
      | None => UNUSED_BYTES_IGNORE_THRESHOLD
      end
  | None => UNUSED_BYTES_IGNORE_THRESHOLD
  end.

Definition bundleSourceUnusedThreshold : number :=
  match options env with
  | Some o =>
      match Options.bundleSourceUnusedThreshold o with
      | Some t => t
      | None => UNUSED_BYTES_IGNORE_BUNDLE_SOURCE_THRESHOLD
      end
  | None => UNUSED_BYTES_IGNORE_BUNDLE_SOURCE_THRESHOLD
  end.

(** [transfer / unusedJsSummary.totalBytes] *)
Definition transferRatio_of (transfer : N) (unusedJsSummary : Summary.t) : number :=
  num_div (num_of_N transfer) (num_of_N (Summary.totalBytes unusedJsSummary)).

(** The object literal assigned to [item]. *)
Definition scaled_item (script : Script.t) (unusedJsSummary : Summary.t)
  (transferRatio : number) (classifiedEntity : option Entity.t) : Item.t :=
  {| Item.url := Script.url script;
     Item.totalBytes :=
       Math_round (num_mul transferRatio (num_of_N (Summary.totalBytes unusedJsSummary)));
     Item.wastedBytes :=
       Math_round (num_mul transferRatio (num_of_N (Summary.wastedBytes unusedJsSummary)));
     Item.wastedPercent := Summary.wastedPercent unusedJsSummary;
     Item.entity := option_map Entity.name classifiedEntity;
     Item.subItems := None |}.

(** [Object.entries(...).sort(...).slice(0, 5).map(...)]: the five
    top-ranked sources with their scaled figures, before the filter. *)
Definition rankedSourceSizes (files : list (jsstring * N)) (unmappedBytes : N)
  (sourcesWastedBytes : list (jsstring * N)) (transferRatio : number)
  : list SourceSize.t :=
  List.map
    (fun entry : jsstring * N =>
       let source := fst entry in
       let unused := snd entry in
       let total :=
         if str_eqb source (js "(unmapped)") then Some unmappedBytes
         else Object_get files source in
       {| SourceSize.source := source;
          SourceSize.unused := Math_round (num_mul (num_of_N unused) transferRatio);
          SourceSize.total :=
            Math_round (num_mul (num_of_undefined total) transferRatio) |})
    (firstn 5
       (Array_sort (fun a b : jsstring * N => (Z.of_N (snd b) - Z.of_N (snd a))%Z)
          sourcesWastedBytes)).

(** [....filter(d => d.unused >= bundleSourceUnusedThreshold)] *)
Definition topUnusedSourceSizes (files : list (jsstring * N)) (unmappedBytes : N)
  (sourcesWastedBytes : list (jsstring * N)) (transferRatio : number)
  : list SourceSize.t :=
  filter (fun d => num_ge (SourceSize.unused d) bundleSourceUnusedThreshold)
    (rankedSourceSizes files unmappedBytes sourcesWastedBytes transferRatio).

(** The callback of [topUnusedSourceSizes.map(...)]. *)
Definition to_subItem (commonSourcePrefix : jsstring) (d : SourceSize.t) : SubItem.t :=
  {| SubItem.source := trimCommonPrefix (SourceSize.source d) commonSourcePrefix;
     SubItem.sourceBytes := SourceSize.total d;
     SubItem.sourceWastedBytes := SourceSize.unused d |}.

(** The value assigned to [item.subItems.items]. *)
Definition subItems_items (bundle : Bundle.t) (files : list (jsstring * N))
  (unmappedBytes : N) (sourcesWastedBytes : list (jsstring * N))
  (transferRatio : number) : list SubItem.t :=
  let commonSourcePrefix := commonPrefix (Bundle.sourceURLs bundle) in
  List.map (to_subItem commonSourcePrefix)
    (topUnusedSourceSizes files unmappedBytes sourcesWastedBytes transferRatio).

(** The tail of the loop body, from the bundle test on: the sub-items the
    pushed item ends up with, [None] when [item.subItems] is never set. *)
Definition subItems_of (bundle : option Bundle.t) (unusedJsSummary : Summary.t)
  (transferRatio : number) : option (list SubItem.t) :=
  match bundle with
  | None => None
  | Some b =>
      match Bundle.sizes b with
      | SizesError _ => None
      | SizesOk files unmappedBytes =>
          match Summary.sourcesWastedBytes unusedJsSummary with
          | None => None
          | Some sourcesWastedBytes =>
              Some (subItems_items b files unmappedBytes sourcesWastedBytes transferRatio)
          end
      end
  end.

Definition set_subItems (item : Item.t) (s : option (list SubItem.t)) : Item.t :=
  {| Item.url := Item.url item;
     Item.totalBytes := Item.totalBytes item;
     Item.wastedBytes := Item.wastedBytes item;
     Item.wastedPercent := Item.wastedPercent item;
     Item.entity := Item.entity item;
     Item.subItems := s |}.

(** [bundles.find(b => b.script.scriptId === scriptId)] *)
Definition bundle_for (scriptId : jsstring) : option Bundle.t :=
  find (fun b => str_eqb (Bundle.script b) scriptId) (bundles env).

(** The summary requested for an entry of [JsUsage]. *)
Definition summary_for (entry : jsstring * ScriptCoverage) : Summary.t :=
  UnusedJavascriptSummary_request env (fst entry) (snd entry) (bundle_for (fst entry)).

(** One iteration of the loop, up to its effect on [items] and
    [byEntity].  The item is pushed before [subItems] is assigned to it;
    the array holds the very object that is assigned to, so the pushed
    item is given here with its final [subItems]. *)
Definition process_entry (entry : jsstring * ScriptCoverage) : outcome :=
  let scriptId := fst entry in
  match find (fun s => str_eqb (Script.scriptId s) scriptId) (Scripts env) with
  | None => Continue_no_script
  | Some script =>
      match getRequestForScript env script with
      | None => Continue_no_networkRecord
      | Some networkRecord =>
          let bundle := bundle_for scriptId in
          let unusedJsSummary := summary_for entry in
          if ((Summary.wastedBytes unusedJsSummary =? 0)%N
              || (Summary.totalBytes unusedJsSummary =? 0)%N)%bool
          then Continue_empty_summary
          else
            let transfer :=
              estimateTransferSize env networkRecord (Summary.totalBytes unusedJsSummary) in
            let transferRatio := transferRatio_of transfer unusedJsSummary in
            let classifiedEntity := classifiedEntities_byURL env (Script.url script) in
            let item := scaled_item script unusedJsSummary transferRatio classifiedEntity in
            if num_le (Item.wastedBytes item) unusedThreshold
            then Continue_below_threshold item
            else
              Pushed (set_subItems item (subItems_of bundle unusedJsSummary transferRatio))
                     classifiedEntity
      end
  end.

(** The group made when [byEntity.get(classifiedEntity)] finds nothing. *)
Definition new_group (classifiedEntity : option Entity.t) : Group.t :=
  let name := match classifiedEntity with Some e => Entity.name e | None => [] end in
  let homepage :=
    match classifiedEntity with
    | Some e =>
        match Entity.homepage e with
        | Some (c :: h) => c :: h
        | _ => js "#"
        end
    | None => js "#"
    end in
  {| Group.text := name;
     Group.href := homepage;
     Group.entity := name;
     Group.wastedBytes := num_of_Z 0;
     Group.totalBytes := num_of_Z 0;
     Group.wastedPercent := None |}.

(** The entity roll-up: look the group up or make it, add the item's
    bytes, recompute the percentage, store the group. *)
Definition roll_up (m : list (option Entity.t * Group.t))
  (classifiedEntity : option Entity.t) (item : Item.t)
  : list (option Entity.t * Group.t) :=
  let entityGroup :=
    match Map_get m classifiedEntity with
    | Some g => g
    | None => new_group classifiedEntity
    end in
  let totalBytes :=
    num_add (num_or_zero (Group.totalBytes entityGroup)) (Item.totalBytes item) in
  let wastedBytes :=
    num_add (num_or_zero (Group.wastedBytes entityGroup)) (Item.wastedBytes item) in
  let wastedPercent := num_mul (num_div wastedBytes totalBytes) (num_of_Z 100) in
  Map_set m classifiedEntity
    {| Group.text := Group.text entityGroup;
       Group.href := Group.href entityGroup;
       Group.entity := Group.entity entityGroup;
       Group.wastedBytes := wastedBytes;
       Group.totalBytes := totalBytes;
       Group.wastedPercent := Some wastedPercent |}.

Definition loop_body (st : LoopState) (entry : jsstring * ScriptCoverage) : LoopState :=
  match process_entry entry with
  | Pushed item classifiedEntity =>
      {| byEntity := roll_up (byEntity st) classifiedEntity item;
         items := items st ++ [item] |}
  | _ => st
  end.

(** The loop state when the [for] loop is over. *)
Definition final_state : LoopState :=
  fold_left loop_body (JsUsage env) {| byEntity := []; items := [] |}.

Definition audit_ : Product.t :=
  {| Product.items := items final_state;
     Product.groups := Map_values (byEntity final_state) |}.

(** ** Notions used to state the properties *)

(** The qualifying entries in iteration order: the item each one pushes,
    with the entity object it is classified under. *)
Definition pushed : list (option Entity.t * Item.t) :=
  flat_map
    (fun entry =>
       match process_entry entry with
       | Pushed item classifiedEntity => [(classifiedEntity, item)]
       | _ => []
       end)
    (JsUsage env).

(** An iteration gets past the first three [continue] statements: the
    script and its network record are found and the summary is not empty. *)
Definition scaling_reached (entry : jsstring * ScriptCoverage)
  (script : Script.t) (networkRecord : NetworkRecord) : Prop :=
  find (fun s => str_eqb (Script.scriptId s) (fst entry)) (Scripts env) = Some script
  /\ getRequestForScript env script = Some networkRecord
  /\ Summary.wastedBytes (summary_for entry) <> 0%N
  /\ Summary.totalBytes (summary_for entry) <> 0%N.

End Audit.

(** The candidate item an iteration got as far as building, if any. *)
Definition outcome_item (o : outcome) : option Item.t :=
  match o with
  | Continue_below_threshold item | Pushed item _ => Some item
  | _ => None
  end.

(** The keys of a list, each kept where it first occurs. *)
Definition first_seen (keys : list (option Entity.t)) : list (option Entity.t) :=
  fold_left
    (fun acc k => if existsb (fun k' => same_key k' k) acc then acc else acc ++ [k])
    keys [].

(** The sum of a list of numbers, added left to right. *)
Definition num_sum (l : list number) : number := fold_left num_add l (num_of_Z 0).

(** [round(transfer / total * n)] on natural numbers, in closed form. *)
Definition round_scaled (transfer total n : N) : Z :=
  ((2 * Z.of_N transfer * Z.of_N n + Z.of_N total) / (2 * Z.of_N total))%Z.



(** The byte figures of an item, or of a group, are the integers [w]
    and [t]. *)
Definition item_bytes (item : Item.t) (w t : Z) : Prop :=
  Item.wastedBytes item = num_of_Z w /\ Item.totalBytes item = num_of_Z t.

Definition group_bytes (g : Group.t) (w t : Z) : Prop :=
  Group.wastedBytes g = num_of_Z w /\ Group.totalBytes g = num_of_Z t.

(** The percentage of a group is the one of its current totals. *)
Definition percent_ok (g : Group.t) : Prop :=
  Group.wastedPercent g
  = Some (num_mul (num_div (Group.wastedBytes g) (Group.totalBytes g)) (num_of_Z 100)).

(** The update of one group by one item: the three assignments of the
    roll-up. *)
Definition absorb (entityGroup : Group.t) (item : Item.t) : Group.t :=
  let totalBytes :=
    num_add (num_or_zero (Group.totalBytes entityGroup)) (Item.totalBytes item) in
  let wastedBytes :=
    num_add (num_or_zero (Group.wastedBytes entityGroup)) (Item.wastedBytes item) in
  {| Group.text := Group.text entityGroup;
     Group.href := Group.href entityGroup;
     Group.entity := Group.entity entityGroup;
     Group.wastedBytes := wastedBytes;
     Group.totalBytes := totalBytes;
     Group.wastedPercent :=
       Some (num_mul (num_div wastedBytes totalBytes) (num_of_Z 100)) |}.

(** The effect on the loop state of an iteration that pushes. *)
Definition push_step (st : LoopState) (p : option Entity.t * Item.t) : LoopState :=
  {| byEntity := roll_up (byEntity st) (fst p) (snd p);
     items := items st ++ [snd p] |}.

(** The items folded into the group of key [k]. *)
Definition contributions (k : option Entity.t) (l : list (option Entity.t * Item.t))
  : list Item.t :=
  List.map snd (filter (fun p => same_key (fst p) k) l).

(** The group of key [k], followed through the pushes of [l]. *)
Definition group_fold (k : option Entity.t) (l : list (option Entity.t * Item.t))
  (og : option Group.t) : option Group.t :=
  fold_left
    (fun og p =>
       if same_key (fst p) k
       then Some (absorb (match og with Some g => g | None => new_group (fst p) end) (snd p))
       else og)
    l og.

(** No two entries of the map have the same key. *)
Fixpoint keys_distinct (m : list (option Entity.t * Group.t)) : Prop :=
  match m with
  | [] => True
  | (k, _) :: rest =>
      (forall k', In k' (List.map fst rest) -> same_key k k' = false)
      /\ keys_distinct rest
  end.

(** Sub-items in descending order of their wasted bytes. *)
Definition descending_waste (a b : SubItem.t) : Prop :=
  num_ge (SubItem.sourceWastedBytes a) (SubItem.sourceWastedBytes b) = true.

(* ===================================================================== *)
(** * Sample runs *)
(* ===================================================================== *)

(** A run given by a table with one row per entry of [JsUsage], in
    iteration order: the script id (which is also the script's URL), the
    transfer size of its network record, its waste summary and its
    classification.  The network record is its transfer size and the
    estimator returns it; coverage data is immaterial. *)
Definition Row : Type := jsstring * (N * Summary.t * option Entity.t).

Definition row_for (table : list Row) (id : jsstring) : option Row :=
  find (fun r => str_eqb (fst r) id) table.

Definition table_env (table : list Row) (bundles : list Bundle.t)
  (options : option Options.t) : Env N unit :=
  {| getRequestForScript := fun script =>
       option_map (fun r : Row => fst (fst (snd r))) (row_for table (Script.scriptId script));
     estimateTransferSize := fun networkRecord _ => networkRecord;
     UnusedJavascriptSummary_request := fun scriptId _ _ =>
       match row_for table scriptId with
       | Some r => snd (fst (snd r))
       | None => Summary.mk 0 0 NaN None
       end;
     bundles := bundles;
     classifiedEntities_byURL := fun url =>
       match row_for table url with
       | Some r => snd (snd r)
       | None => None
       end;
     JsUsage := List.map (fun r : Row => (fst r, tt)) table;
     Scripts := List.map (fun r : Row => Script.mk (fst r) (fst r)) table;
     options := options |}.

(** One script of 100000 bytes, half of them unused. *)
Definition half_used : Summary.t :=
  Summary.mk 100000 50000 (num_of_Z 50) None.

Definition entry_1 : jsstring * unit := (js "1", tt).

Definition item_half_used : Item.t :=
  {| Item.url := js "1";
     Item.totalBytes := num_of_Z 100000;
     Item.wastedBytes := num_of_Z 50000;
     Item.wastedPercent := num_of_Z 50;
     Item.entity := None;
     Item.subItems := None |}.

(** The script transferred uncompressed, under the default options. *)
Definition run_plain : Env N unit :=
  table_env [(js "1", (100000%N, half_used, None))] [] None.



(** A summary without wasted bytes. *)
Definition run_no_waste : Env N unit :=
  table_env [(js "1", (100000%N, Summary.mk 100000 0 (num_of_Z 0) None, None))] [] None.



(** A bundle whose sizes could not be computed. *)
Definition broken_bundle : Bundle.t :=
  Bundle.mk (js "1") (SizesError (js "map is broken")) [js "a.js"; js "b.js"].

Definition run_broken_bundle : Env N unit :=
  table_env
    [(js "1", (100000%N,
               Summary.mk 100000 50000 (num_of_Z 50) (Some [(js "a.js", 30000%N)]),
               None))]
    [broken_bundle] None.

(** Two scripts of one entity, and a third one of another entity that
    bears the same name. *)
Definition acme : Entity.t := Entity.mk 1 (js "Acme") (Some (js "https://acme.example")).
Definition acme_twin : Entity.t := Entity.mk 2 (js "Acme") None.

Definition thirty_of_sixty : Summary.t := Summary.mk 60000 30000 (num_of_Z 50) None.

Definition run_entities : Env N unit :=
  table_env
    [(js "1", (60000%N, thirty_of_sixty, Some acme));
     (js "2", (60000%N, thirty_of_sixty, Some acme));
     (js "3", (60000%N, thirty_of_sixty, Some acme_twin))]
    [] None.

Definition group_acme : Group.t :=
  {| Group.text := js "Acme";
     Group.href := js "https://acme.example";
     Group.entity := js "Acme";
     Group.wastedBytes := num_of_Z 60000;
     Group.totalBytes := num_of_Z 120000;
     Group.wastedPercent := Some (num_of_Z 50) |}.

(** A bundle of seven sources, one of them wasting exactly the default
    per-source threshold of 512 bytes. *)
Definition seven_sources : list (jsstring * N) :=
  [(js "src/a.js", 512%N); (js "src/b.js", 8000%N); (js "src/c.js", 100%N);
   (js "src/d.js", 7000%N); (js "(unmapped)", 6000%N); (js "src/f.js", 5000%N);
   (js "src/g.js", 300%N)].

Definition good_bundle : Bundle.t :=
  Bundle.mk (js "1")
    (SizesOk
       [(js "src/a.js", 1000%N); (js "src/b.js", 9000%N); (js "src/c.js", 1000%N);
        (js "src/d.js", 9000%N); (js "src/f.js", 9000%N); (js "src/g.js", 1000%N)]
       10000)
    [js "src/a.js"; js "src/b.js"; js "src/c.js"; js "src/d.js"; js "src/f.js";
     js "src/g.js"].

Definition run_bundle : Env N unit :=
  table_env
    [(js "1", (100000%N,
               Summary.mk 100000 50000 (num_of_Z 50) (Some seven_sources),
               None))]
    [good_bundle] None.

Definition subItems_bundle : list SubItem.t :=
  [ SubItem.mk (ellipsis ++ js "b.js") (num_of_Z 9000) (num_of_Z 8000);
    SubItem.mk (ellipsis ++ js "d.js") (num_of_Z 9000) (num_of_Z 7000);
    SubItem.mk (js "(unmapped)") (num_of_Z 10000) (num_of_Z 6000);
    SubItem.mk (ellipsis ++ js "f.js") (num_of_Z 9000) (num_of_Z 5000);
    SubItem.mk (ellipsis ++ js "a.js") (num_of_Z 1000) (num_of_Z 512) ].

Definition item_bundle : Item.t :=
  {| Item.url := js "1";
     Item.totalBytes := num_of_Z 100000;
     Item.wastedBytes := num_of_Z 50000;
     Item.wastedPercent := num_of_Z 50;
     Item.entity := None;
     Item.subItems := Some subItems_bundle |}.

Definition script_1 : Script.t := Script.mk (js "1") (js "1").

(* ===================================================================== *)
(** * Variations of a run *)
(* ===================================================================== *)

(** The run [env] over another coverage set. *)
Definition with_JsUsage {NetworkRecord ScriptCoverage : Type}
  (env : Env NetworkRecord ScriptCoverage) (usage : list (jsstring * ScriptCoverage))
  : Env NetworkRecord ScriptCoverage :=
  {| getRequestForScript := getRequestForScript env;
     estimateTransferSize := estimateTransferSize env;
     UnusedJavascriptSummary_request := UnusedJavascriptSummary_request env;
     bundles := bundles env;
     classifiedEntities_byURL := classifiedEntities_byURL env;
     JsUsage := usage;
     Scripts := Scripts env;
     options := options env |}.

(** The run [env] under other options. *)
Definition with_options {NetworkRecord ScriptCoverage : Type}
  (env : Env NetworkRecord ScriptCoverage) (o : option Options.t)
  : Env NetworkRecord ScriptCoverage :=
  {| getRequestForScript := getRequestForScript env;
     estimateTransferSize := estimateTransferSize env;
     UnusedJavascriptSummary_request := UnusedJavascriptSummary_request env;
     bundles := bundles env;
     classifiedEntities_byURL := classifiedEntities_byURL env;
     JsUsage := JsUsage env;
     Scripts := Scripts env;
     options := o |}.

(** [classifiedEntity?.name || ''], the label of the group of
    [classifiedEntity]. *)
Definition entity_label (classifiedEntity : option Entity.t) : jsstring :=
  match classifiedEntity with
  | Some e => Entity.name e
  | None => []
  end.

(** [classifiedEntity?.homepage || '#'], the link of that group. *)
Definition entity_link (classifiedEntity : option Entity.t) : jsstring :=
  match classifiedEntity with
  | Some e =>
      match Entity.homepage e with
      | Some (c :: h) => c :: h
      | _ => js "#"
      end
  | None => js "#"
  end.

(** The entries [sort] and [slice(0, 5)] keep, and those they leave out. *)
Definition kept_sources (sourcesWastedBytes : list (jsstring * N)) : list (jsstring * N) :=
  firstn 5
    (Array_sort (fun a b : jsstring * N => (Z.of_N (snd b) - Z.of_N (snd a))%Z)
       sourcesWastedBytes).

Definition dropped_sources (sourcesWastedBytes : list (jsstring * N)) : list (jsstring * N) :=
  skipn 5
    (Array_sort (fun a b : jsstring * N => (Z.of_N (snd b) - Z.of_N (snd a))%Z)
       sourcesWastedBytes).

(** The integer a whole number stands for. *)
Definition num_to_Z (a : number) : Z :=
  match a with
  | Num q => Qfloor q
  | _ => 0%Z
  end.

(** The label and the link of a group are those of the key [k]. *)
Definition labelled_by (k : option Entity.t) (g : Group.t) : Prop :=
  Group.text g = entity_label k
  /\ Group.entity g = entity_label k
  /\ Group.href g = entity_link k.

(** The bytes held by a map: wasted and total, over all its groups. *)
Definition held (m : list (option Entity.t * Group.t)) : Z * Z :=
  (fold_left Z.add (List.map (fun kv => num_to_Z (Group.wastedBytes (snd kv))) m) 0%Z,
   fold_left Z.add (List.map (fun kv => num_to_Z (Group.totalBytes (snd kv))) m) 0%Z).

(** The test of the loop, [!(item.wastedBytes <= threshold)], as a
    predicate on items. *)
Definition above (threshold : number) (item : Item.t) : bool :=
  negb (num_le (Item.wastedBytes item) threshold).

(* ===================================================================== *)
(** * More sample runs *)
(* ===================================================================== *)

(** The plain run with an entry whose script id is not among the scripts. *)
Definition entry_9 : jsstring * unit := (js "9", tt).

(** The plain run under a threshold of 60000 bytes. *)
Definition raised_options : option Options.t :=
  Some (Options.mk (Some (num_of_Z 60000)) None).

(** A script of 100000 bytes, 90000 of them unused, sent in 25000 bytes. *)
Definition mostly_unused : Summary.t :=
  Summary.mk 100000 90000 (num_of_Z 90) None.

Definition run_compressed : Env N unit :=
  table_env [(js "1", (25000%N, mostly_unused, None))] [] None.

Definition item_compressed : Item.t :=
  {| Item.url := js "1";
     Item.totalBytes := num_of_Z 25000;
     Item.wastedBytes := num_of_Z 22500;
     Item.wastedPercent := num_of_Z 90;
     Item.entity := None;
     Item.subItems := None |}.






(* ===================================================================== *)
(** * Properties *)
(* ===================================================================== *)

Unset Implicit Arguments.

(* ===================================================================== *)
(** * Strings: order and prefixes *)
(* ===================================================================== *)

Section StringFacts.

Lemma startsWith_iff (s p : jsstring) :
  startsWith s p = true <-> exists t, s = p ++ t.
Proof.
  revert s. induction p as [|c p IH]; intros s; simpl.
  - split; [intros _; now exists s | reflexivity].
  - destruct s as [|d s].
    + split; [discriminate | intros [t Ht]; discriminate].
    + rewrite andb_true_iff, N.eqb_eq, IH. split.
      * intros [-> [t ->]]. now exists t.
      * intros [t Ht]. injection Ht as -> ->. split; [reflexivity | now exists t].
Qed.

Lemma startsWith_refl (s : jsstring) : startsWith s s = true.
Proof. apply startsWith_iff. exists []. now rewrite app_nil_r. Qed.

Lemma startsWith_length (s p : jsstring) :
  startsWith s p = true -> (length p <= length s)%nat.
Proof.
  intros H. apply startsWith_iff in H as [t ->]. rewrite length_app. lia.
Qed.

Lemma startsWith_trans (s p q : jsstring) :
  startsWith s p = true -> startsWith p q = true -> startsWith s q = true.
Proof.
  rewrite !startsWith_iff. intros [t ->] [u ->].
  exists (u ++ t). now rewrite app_assoc.
Qed.

(** A prefix of [p] other than [p] itself is a prefix of [p] without
    its last code unit. *)
Lemma startsWith_removelast (p q : jsstring) :
  startsWith p q = true -> q <> p -> startsWith (removelast p) q = true.
Proof.
  rewrite !startsWith_iff. intros [t ->] Hne.
  destruct t as [|c t] using rev_ind.
  - now rewrite app_nil_r in Hne.
  - exists t. rewrite app_assoc. now rewrite removelast_last.
Qed.

Lemma removelast_startsWith (p : jsstring) : startsWith p (removelast p) = true.
Proof.
  apply startsWith_iff. destruct p as [|c p] using rev_ind.
  - now exists [].
  - exists [c]. now rewrite removelast_last.
Qed.

Lemma str_gt_irrefl (a : jsstring) : str_gt a a = false.
Proof.
  induction a as [|x a IH]; simpl; [reflexivity|].
  now rewrite N.ltb_irrefl.
Qed.

Lemma str_gt_asym (a b : jsstring) : str_gt a b = true -> str_gt b a = false.
Proof.
  revert b. induction a as [|x a IH]; intros [|y b]; simpl; try easy.
  destruct (N.ltb_spec y x), (N.ltb_spec x y); try easy; try lia.
  apply IH.
Qed.

(** [a <= b], read as "not [a > b]", is transitive. *)
Lemma str_le_trans (a b c : jsstring) :
  str_gt a b = false -> str_gt b c = false -> str_gt a c = false.
Proof.
  revert b c. induction a as [|x a IH]; intros [|y b] [|z c]; simpl; try easy.
  destruct (N.ltb_spec y x), (N.ltb_spec x y), (N.ltb_spec z y), (N.ltb_spec y z),
    (N.ltb_spec z x), (N.ltb_spec x z); try easy; try lia.
  apply IH.
Qed.

(** A string between two strings that share a prefix has that prefix. *)
Lemma startsWith_between (p lo hi s : jsstring) :
  startsWith lo p = true -> startsWith hi p = true ->
  str_gt lo s = false -> str_gt s hi = false ->
  startsWith s p = true.
Proof.
  revert lo hi s. induction p as [|c p IH]; intros lo hi s; simpl; [reflexivity|].
  destruct lo as [|l lo]; [discriminate|].
  destruct hi as [|h hi]; [discriminate|].
  rewrite !andb_true_iff, !N.eqb_eq. intros [<- Hlo] [<- Hhi].
  destruct s as [|d s]; simpl; [discriminate|].
  destruct (N.ltb_spec d c), (N.ltb_spec c d); try easy; try lia.
  intros Hls Hsh. assert (c = d) as <- by lia.
  rewrite N.eqb_refl. simpl. eauto.
Qed.

End StringFacts.

(** The two [reduce] calls of [commonPrefix]. *)
Section Extremes.
Lemma fold_max_spec (rest : list jsstring) (first : jsstring) :
  let m := fold_left (fun a b => if str_gt a b then a else b) rest first in
  In m (first :: rest) /\ forall s, In s (first :: rest) -> str_gt s m = false.
Proof.
  revert first. induction rest as [|b rest IH]; intros first; simpl.
  - split; [now left|]. intros s [<-|[]]. apply str_gt_irrefl.
  - specialize (IH (if str_gt first b then first else b)). simpl in IH. destruct IH as [Hin Hmax].
    split.
    + destruct Hin as [Hin|Hin]; [|now right; right].
      rewrite <- Hin. destruct (str_gt first b); auto.
    + intros s Hs.
      assert (Hb : str_gt first (if str_gt first b then first else b) = false
                   /\ str_gt b (if str_gt first b then first else b) = false).
      { destruct (str_gt first b) eqn:E.
        - split; [apply str_gt_irrefl | now apply str_gt_asym].
        - split; [assumption | apply str_gt_irrefl]. }
      destruct Hb as [Hf Hb'].
      destruct Hs as [<-|[<-|Hs]].
      * eapply str_le_trans; [exact Hf|]. apply Hmax. now left.
      * eapply str_le_trans; [exact Hb'|]. apply Hmax. now left.
      * apply Hmax. now right.
Qed.

Lemma fold_min_spec (rest : list jsstring) (first : jsstring) :
  let m := fold_left (fun a b => if str_gt a b then b else a) rest first in
  In m (first :: rest) /\ forall s, In s (first :: rest) -> str_gt m s = false.
Proof.
  revert first. induction rest as [|b rest IH]; intros first; simpl.
  - split; [now left|]. intros s [<-|[]]. apply str_gt_irrefl.
  - specialize (IH (if str_gt first b then b else first)). simpl in IH. destruct IH as [Hin Hmin].
    split.
    + destruct Hin as [Hin|Hin]; [|now right; right].
      rewrite <- Hin. destruct (str_gt first b); auto.
    + intros s Hs.
      assert (Hb : str_gt (if str_gt first b then b else first) first = false
                   /\ str_gt (if str_gt first b then b else first) b = false).
      { destruct (str_gt first b) eqn:E.
        - split; [now apply str_gt_asym | apply str_gt_irrefl].
        - split; [apply str_gt_irrefl | assumption]. }
      destruct Hb as [Hf Hb'].
      destruct Hs as [<-|[<-|Hs]].
      * eapply str_le_trans; [|exact Hf]. apply Hmin. now left.
      * eapply str_le_trans; [|exact Hb']. apply Hmin. now left.
      * apply Hmin. now right.
Qed.
End Extremes.

(** The [while] loop returns the longest prefix of [prefix] that [maxWord]
    starts with. *)
Lemma shorten_spec (maxWord prefix : jsstring) :
  startsWith prefix (shorten maxWord prefix) = true
  /\ startsWith maxWord (shorten maxWord prefix) = true
  /\ forall q, startsWith prefix q = true -> startsWith maxWord q = true ->
               startsWith (shorten maxWord prefix) q = true.
Proof.
  funelim (shorten maxWord prefix).
  - repeat split; [apply startsWith_refl | assumption | auto].
  - match goal with IH : _ /\ _ /\ _ |- _ => destruct IH as (H1 & H2 & H3) end.
    unfold slice_0_m1 in *. repeat split.
    + eapply startsWith_trans; [apply removelast_startsWith | exact H1].
    + exact H2.
    + intros q Hq Hm. apply H3; [|exact Hm].
      apply startsWith_removelast; [exact Hq|].
      intros ->. congruence.
Qed.

(** Claim C6.  [commonPrefix strings] is a prefix of every element of
    [strings].  When [strings] is not empty it is the longest such string:
    every string that is a prefix of all elements is a prefix of it, and
    no code unit can be appended to it without some element ceasing to
    start with the result.  On the empty list it is the empty string. *)
Theorem commonPrefix_longest_common_prefix (strings : list jsstring) :
  (forall s, In s strings -> startsWith s (commonPrefix strings) = true)
  /\ (strings <> [] ->
      forall q, (forall s, In s strings -> startsWith s q = true) ->
                startsWith (commonPrefix strings) q = true)
  /\ (strings <> [] ->
      forall c, ~ (forall s, In s strings ->
                             startsWith s (commonPrefix strings ++ [c]) = true))
  /\ commonPrefix [] = [].
Proof.
  assert (Hmain :
    (forall s, In s strings -> startsWith s (commonPrefix strings) = true)
    /\ (strings <> [] ->
        forall q, (forall s, In s strings -> startsWith s q = true) ->
                  startsWith (commonPrefix strings) q = true)).
  { destruct strings as [|first rest]; [split; [intros s []| congruence]|].
    unfold commonPrefix. cbn [length Nat.eqb reduce].
    pose proof (fold_max_spec rest first) as [Hmax_in Hmax].
    pose proof (fold_min_spec rest first) as [Hmin_in Hmin].
    cbv zeta in *.
    set (maxWord := fold_left (fun a b => if str_gt a b then a else b) rest first) in *.
    set (prefix := fold_left (fun a b => if str_gt a b then b else a) rest first) in *.
    destruct (shorten_spec maxWord prefix) as (Hp & Hm & Hlong).
    split.
    - intros s Hs.
      apply (startsWith_between _ prefix maxWord); auto.
    - intros _ q Hq. apply Hlong; apply Hq; assumption. }
  destruct Hmain as [Hpre Hlong]. repeat split; try assumption.
  intros Hne c Hall. specialize (Hlong Hne _ Hall).
  apply startsWith_length in Hlong. rewrite length_app in Hlong. simpl in Hlong. lia.
Qed.

Section NumberFacts.

Lemma Qred_inject_Z (z : Z) : Qred (inject_Z z) = inject_Z z.
Proof. apply Qcanon.Qred_identity. simpl. apply Z.gcd_1_r. Qed.

Lemma Qsign_inject_Z (z : Z) : Qsign (inject_Z z) = (z ?= 0)%Z.
Proof. unfold Qsign, Qcompare. simpl. now rewrite Z.mul_1_r. Qed.

Lemma num_add_int (a b : Z) :
  num_add (num_of_Z a) (num_of_Z b) = num_of_Z (a + b).
Proof.
  unfold num_add, num_of_Z. f_equal.
  rewrite <- (Qred_inject_Z (a + b)). apply Qred_complete.
  rewrite inject_Z_plus. reflexivity.
Qed.

Lemma num_le_int (a b : Z) : num_le (num_of_Z a) (num_of_Z b) = (a <=? b)%Z.
Proof. unfold num_le, num_of_Z, Qle_bool. simpl. now rewrite !Z.mul_1_r. Qed.

Lemma num_or_zero_int (z : Z) : num_or_zero (num_of_Z z) = num_of_Z z.
Proof.
  unfold num_or_zero, num_of_Z. rewrite Qsign_inject_Z.
  destruct (Z.compare_spec z 0); subst; reflexivity.
Qed.

Lemma Qfloor_half_int (z : Z) : Qfloor (inject_Z z + (1 # 2)) = z.
Proof.
  unfold Qfloor, Qplus, inject_Z. simpl.
  replace (z * 2 + 1)%Z with (1 + z * 2)%Z by lia.
  rewrite Z.div_add by lia. reflexivity.
Qed.

Lemma Math_round_int (z : Z) : Math_round (num_of_Z z) = num_of_Z z.
Proof. unfold Math_round, num_of_Z at 1. now rewrite Qfloor_half_int. Qed.

(** The ratio is a finite, non-negative rational as soon as the
    denominator is not zero. *)
Lemma num_div_N (a b : N) :
  b <> 0%N ->
  num_div (num_of_N a) (num_of_N b)
  = Num (Qred (inject_Z (Z.of_N a) / inject_Z (Z.of_N b))).
Proof.
  intros Hb. unfold num_div, num_of_N, num_of_Z. rewrite Qsign_inject_Z.
  destruct (Z.compare_spec (Z.of_N b) 0); try reflexivity. lia.
Qed.

Lemma Qfloor_scaled (t T n : N) (x : Q) :
  T <> 0%N ->
  x == inject_Z (Z.of_N t) / inject_Z (Z.of_N T) * inject_Z (Z.of_N n) ->
  Qfloor (x + (1 # 2)) = round_scaled t T n.
Proof.
  intros HT Hx. unfold round_scaled. rewrite Zdiv_Qdiv.
  apply Qfloor_comp. rewrite Hx.
  rewrite !inject_Z_plus, !inject_Z_mult.
  assert (HT' : ~ inject_Z (Z.of_N T) == 0).
  { intros E. unfold Qeq in E. simpl in E. lia. }
  field. exact HT'.
Qed.

Lemma round_ratio_mul (t T n : N) :
  T <> 0%N ->
  Math_round (num_mul (num_div (num_of_N t) (num_of_N T)) (num_of_N n))
  = num_of_Z (round_scaled t T n).
Proof.
  intros HT. rewrite num_div_N by assumption.
  unfold num_of_N at 1, num_of_Z at 1, num_mul, Math_round. f_equal.
  apply Qfloor_scaled; [assumption|]. now rewrite !Qred_correct.
Qed.

Lemma round_mul_ratio (t T n : N) :
  T <> 0%N ->
  Math_round (num_mul (num_of_N n) (num_div (num_of_N t) (num_of_N T)))
  = num_of_Z (round_scaled t T n).
Proof.
  intros HT. rewrite num_div_N by assumption.
  unfold num_of_N at 1, num_of_Z at 1, num_mul, Math_round. f_equal.
  apply Qfloor_scaled; [assumption|]. rewrite !Qred_correct. apply Qmult_comm.
Qed.

Lemma round_scaled_nonneg (t T n : N) : (0 <= round_scaled t T n)%Z.
Proof.
  unfold round_scaled. destruct (N.eq_dec T 0) as [->|HT].
  - simpl. rewrite Z.div_0_r. lia.
  - apply Z.div_pos; lia.
Qed.

Lemma round_scaled_mono (t T n m : N) :
  (n <= m)%N -> (round_scaled t T n <= round_scaled t T m)%Z.
Proof.
  intros H. unfold round_scaled.
  destruct (N.eq_dec T 0) as [->|HT].
  - simpl. rewrite !Z.div_0_r. lia.
  - apply Z.div_le_mono; [lia|]. nia.
Qed.

Lemma round_scaled_total (t T : N) : T <> 0%N -> round_scaled t T T = Z.of_N t.
Proof.
  intros HT. unfold round_scaled.
  replace (2 * Z.of_N t * Z.of_N T + Z.of_N T)%Z
    with (Z.of_N T + Z.of_N t * (2 * Z.of_N T))%Z by lia.
  rewrite Z.div_add by lia. rewrite Z.div_small by lia. lia.
Qed.



End NumberFacts.

Section EntryFacts.
Context {NetworkRecord ScriptCoverage : Type}.
Variable env : Env NetworkRecord ScriptCoverage.

Lemma process_entry_scaled entry script networkRecord :
  scaling_reached env entry script networkRecord ->
  let s := summary_for env entry in
  let transferRatio :=
    transferRatio_of (estimateTransferSize env networkRecord (Summary.totalBytes s)) s in
  let classifiedEntity := classifiedEntities_byURL env (Script.url script) in
  let item := scaled_item script s transferRatio classifiedEntity in
  process_entry env entry =
    if num_le (Item.wastedBytes item) (unusedThreshold env)
    then Continue_below_threshold item
    else Pushed (set_subItems item (subItems_of env (bundle_for env (fst entry)) s transferRatio))
                classifiedEntity.
Proof.
  intros (Hs & Hn & Hw & Ht). cbv zeta. unfold process_entry.
  rewrite Hs, Hn.
  apply N.eqb_neq in Hw, Ht. rewrite Hw, Ht. reflexivity.
Qed.

Lemma process_entry_inv entry item :
  outcome_item (process_entry env entry) = Some item ->
  exists script networkRecord, scaling_reached env entry script networkRecord.
Proof.
  unfold process_entry, scaling_reached.
  destruct (find _ (Scripts env)) as [script|]; [|discriminate].
  destruct (getRequestForScript env script) as [networkRecord|] eqn:Hn; [|discriminate].
  cbv zeta.
  destruct (Summary.wastedBytes _ =? 0)%N eqn:Hw; [discriminate|].
  destruct (Summary.totalBytes _ =? 0)%N eqn:Ht; [discriminate|].
  intros _. exists script, networkRecord.
  apply N.eqb_neq in Hw, Ht. auto.
Qed.

(** The byte figures of a scaled item, in closed form. *)
Lemma scaled_item_bytes script (s : Summary.t) (transfer : N) ce :
  Summary.totalBytes s <> 0%N ->
  let item := scaled_item script s (transferRatio_of transfer s) ce in
  Item.totalBytes item = num_of_Z (Z.of_N transfer)
  /\ Item.wastedBytes item
     = num_of_Z (round_scaled transfer (Summary.totalBytes s) (Summary.wastedBytes s)).
Proof.
  intros HT. cbv zeta. unfold scaled_item, transferRatio_of.
  cbn [Item.totalBytes Item.wastedBytes].
  rewrite !round_ratio_mul by assumption.
  now rewrite round_scaled_total.
Qed.

End EntryFacts.

(* ===================================================================== *)
(** * The entity map *)
(* ===================================================================== *)

Section MapFacts.

Lemma same_key_refl k : same_key k k = true.
Proof. destruct k; simpl; [apply Pos.eqb_refl | reflexivity]. Qed.

Lemma same_key_sym k k' : same_key k k' = same_key k' k.
Proof. destruct k, k'; simpl; try reflexivity. apply Pos.eqb_sym. Qed.

Lemma same_key_trans k1 k2 k3 :
  same_key k1 k2 = true -> same_key k2 k3 = true -> same_key k1 k3 = true.
Proof.
  destruct k1, k2, k3; simpl; try easy.
  rewrite !Pos.eqb_eq. congruence.
Qed.

(** Keys that agree with a third key agree on every other key. *)
Lemma same_key_congr k1 k2 k :
  same_key k1 k2 = true -> same_key k1 k = same_key k2 k.
Proof.
  intros H. destruct (same_key k2 k) eqn:E.
  - eapply same_key_trans; eauto.
  - destruct (same_key k1 k) eqn:E'; [|reflexivity].
    rewrite <- E. symmetry. eapply same_key_trans; [|exact E'].
    now rewrite same_key_sym.
Qed.

Lemma Map_get_set_same m k v : Map_get (Map_set m k v) k = Some v.
Proof.
  induction m as [|[k0 v0] m IH]; simpl.
  - now rewrite same_key_refl.
  - destruct (same_key k0 k) eqn:E; simpl; now rewrite E.
Qed.

Lemma Map_get_set_other m k v k' :
  same_key k k' = false -> Map_get (Map_set m k v) k' = Map_get m k'.
Proof.
  intros Hne. induction m as [|[k0 v0] m IH]; simpl.
  - now rewrite Hne.
  - destruct (same_key k0 k) eqn:E; simpl.
    + rewrite (same_key_congr _ _ k' E), Hne. reflexivity.
    + now rewrite IH.
Qed.

Lemma Map_get_congr m k k' :
  same_key k k' = true -> Map_get m k = Map_get m k'.
Proof.
  intros H. induction m as [|[k0 v0] m IH]; simpl; [reflexivity|].
  rewrite (same_key_sym k0 k), (same_key_sym k0 k'), (same_key_congr _ _ k0 H).
  now rewrite IH.
Qed.

Lemma Map_set_keys m k v :
  List.map fst (Map_set m k v)
  = if existsb (fun k' => same_key k' k) (List.map fst m)
    then List.map fst m else List.map fst m ++ [k].
Proof.
  induction m as [|[k0 v0] m IH]; simpl; [reflexivity|].
  destruct (same_key k0 k); simpl; [reflexivity|].
  rewrite IH. now destruct (existsb _ _).
Qed.

Lemma Map_get_In m k g : Map_get m k = Some g -> In g (Map_values m).
Proof.
  induction m as [|[k0 v0] m IH]; simpl; [discriminate|].
  destruct (same_key k0 k); [injection 1 as ->; now left | auto].
Qed.

Lemma Map_values_In m g :
  In g (Map_values m) -> exists k, In (k, g) m.
Proof.
  unfold Map_values. rewrite in_map_iff. intros [[k v] [<- H]]. now exists k.
Qed.

End MapFacts.

(* ===================================================================== *)
(** * The loop as a fold over the pushed items *)
(* ===================================================================== *)

Section LoopFacts.
Context {NetworkRecord ScriptCoverage : Type}.
Variable env : Env NetworkRecord ScriptCoverage.

Lemma roll_up_absorb m k item :
  roll_up m k item
  = Map_set m k (absorb (match Map_get m k with
                         | Some g => g
                         | None => new_group k
                         end) item).
Proof. reflexivity. Qed.

Lemma loop_body_push st entry :
  loop_body env st entry
  = fold_left push_step
      (match process_entry env entry with
       | Pushed item ce => [(ce, item)]
       | _ => []
       end) st.
Proof. unfold loop_body. destruct (process_entry env entry); reflexivity. Qed.

Lemma fold_loop_body l st :
  fold_left (loop_body env) l st
  = fold_left push_step
      (flat_map (fun entry =>
                   match process_entry env entry with
                   | Pushed item ce => [(ce, item)]
                   | _ => []
                   end) l) st.
Proof.
  revert st. induction l as [|e l IH]; intros st; simpl; [reflexivity|].
  rewrite fold_left_app, IH, loop_body_push. reflexivity.
Qed.

Lemma final_state_pushed :
  final_state env
  = fold_left push_step (pushed env) {| byEntity := []; items := [] |}.
Proof. apply fold_loop_body. Qed.

Lemma fold_push_items l st :
  items (fold_left push_step l st) = items st ++ List.map snd l.
Proof.
  revert st. induction l as [|p l IH]; intros st; simpl.
  - now rewrite app_nil_r.
  - rewrite IH. simpl. now rewrite <- app_assoc.
Qed.

Lemma fold_push_byEntity l st :
  byEntity (fold_left push_step l st)
  = fold_left (fun m p => roll_up m (fst p) (snd p)) l (byEntity st).
Proof. revert st. induction l as [|p l IH]; intros st; simpl; [reflexivity | now rewrite IH]. Qed.

Lemma audit_items : Product.items (audit_ env) = List.map snd (pushed env).
Proof. unfold audit_. simpl. now rewrite final_state_pushed, fold_push_items. Qed.

Lemma final_byEntity :
  byEntity (final_state env)
  = fold_left (fun m p => roll_up m (fst p) (snd p)) (pushed env) [].
Proof. now rewrite final_state_pushed, fold_push_byEntity. Qed.

Lemma pushed_In k item :
  In (k, item) (pushed env) <->
  exists entry, In entry (JsUsage env) /\ process_entry env entry = Pushed item k.
Proof.
  unfold pushed. rewrite in_flat_map. split.
  - intros (entry & Hin & H). exists entry. split; [assumption|].
    destruct (process_entry env entry); try contradiction.
    destruct H as [H|[]]. now injection H as -> ->.
  - intros (entry & Hin & H). exists entry. split; [assumption|].
    rewrite H. now left.
Qed.

Lemma audit_items_In item :
  In item (Product.items (audit_ env)) <->
  exists entry ce, In entry (JsUsage env) /\ process_entry env entry = Pushed item ce.
Proof.
  rewrite audit_items, in_map_iff. split.
  - intros ([k i] & <- & H). apply pushed_In in H as (entry & ? & ?). eauto.
  - intros (entry & ce & Hin & H). exists (ce, item). split; [reflexivity|].
    apply pushed_In. eauto.
Qed.

(** The keys of the map, in the order the groups were made. *)
Lemma fold_roll_up_keys l m :
  List.map fst (fold_left (fun m p => roll_up m (fst p) (snd p)) l m)
  = fold_left
      (fun acc k => if existsb (fun k' => same_key k' k) acc then acc else acc ++ [k])
      (List.map fst l) (List.map fst m).
Proof.
  revert m. induction l as [|p l IH]; intros m; simpl; [reflexivity|].
  rewrite IH, roll_up_absorb, Map_set_keys. reflexivity.
Qed.

(** The group of one key, followed through the loop. *)
Lemma fold_roll_up_get l m k :
  Map_get (fold_left (fun m p => roll_up m (fst p) (snd p)) l m) k
  = fold_left
      (fun og p =>
         if same_key (fst p) k
         then Some (absorb (match og with Some g => g | None => new_group (fst p) end)
                           (snd p))
         else og)
      l (Map_get m k).
Proof.
  revert m. induction l as [|p l IH]; intros m; simpl; [reflexivity|].
  rewrite IH, roll_up_absorb. f_equal.
  destruct (same_key (fst p) k) eqn:E.
  - rewrite <- (Map_get_congr (Map_set _ _ _) _ _ E), Map_get_set_same.
    now rewrite (Map_get_congr m _ _ E).
  - now rewrite Map_get_set_other.
Qed.

End LoopFacts.

Section GroupFacts.

Lemma absorb_bytes g item w t w' t' :
  group_bytes g w t -> item_bytes item w' t' ->
  group_bytes (absorb g item) (w + w') (t + t').
Proof.
  intros [Hw Ht] [Hw' Ht']. unfold group_bytes, absorb. simpl.
  rewrite Hw, Ht, Hw', Ht', !num_or_zero_int, !num_add_int. auto.
Qed.

Lemma new_group_bytes k : group_bytes (new_group k) 0 0.
Proof. split; reflexivity. Qed.

Lemma absorb_percent g item :
  Group.wastedPercent (absorb g item)
  = Some (num_mul (num_div (Group.wastedBytes (absorb g item))
                           (Group.totalBytes (absorb g item)))
                  (num_of_Z 100)).
Proof. reflexivity. Qed.

(** Following one key through the loop: the group is there exactly when
    an item was folded into it, and then its totals are the sums of the
    items' figures and its percentage is the one of these totals. *)
Lemma group_fold_spec k l :
  (forall p, In p l -> exists w t, item_bytes (snd p) w t) ->
  forall og w0 t0,
    match og with
    | Some g => group_bytes g w0 t0 /\ percent_ok g
    | None => w0 = 0%Z /\ t0 = 0%Z
    end ->
    match group_fold k l og with
    | None => og = None /\ contributions k l = []
    | Some g =>
        Group.wastedBytes g
        = fold_left num_add (List.map Item.wastedBytes (contributions k l)) (num_of_Z w0)
        /\ Group.totalBytes g
           = fold_left num_add (List.map Item.totalBytes (contributions k l)) (num_of_Z t0)
        /\ percent_ok g
        /\ (og = None -> contributions k l <> [])
    end.
Proof.
  unfold group_fold, contributions.
  induction l as [|p l IH]; intros Hl og w0 t0 Hog.
  - cbn. destruct og as [g|]; [|auto].
    destruct Hog as [[Hw Ht] Hpc]. repeat split; auto; congruence.
  - destruct (Hl p (or_introl eq_refl)) as (w & t & Hp).
    assert (Hl' : forall q, In q l -> exists w t, item_bytes (snd q) w t)
      by (intros q Hq; apply Hl; now right).
    cbn [fold_left filter].
    destruct (same_key (fst p) k) eqn:E.
    + set (g0 := match og with Some g => g | None => new_group (fst p) end).
      assert (Hg0 : group_bytes g0 w0 t0).
      { unfold g0. destruct og; [apply Hog|].
        destruct Hog as [-> ->]. apply new_group_bytes. }
      pose proof (absorb_bytes _ _ _ _ _ _ Hg0 Hp) as Hab.
      specialize (IH Hl' (Some (absorb g0 (snd p))) _ _
                     (conj Hab (absorb_percent g0 (snd p)))).
      destruct (fold_left _ l (Some (absorb g0 (snd p)))) as [g|].
      * destruct IH as (Hw & Ht & Hpc & _).
        destruct Hp as [Hpw Hpt].
        cbn [List.map fold_left]. rewrite Hpw, Hpt, !num_add_int.
        repeat split; try assumption; discriminate.
      * destruct IH as [IH _]. discriminate.
    + specialize (IH Hl' og _ _ Hog).
      destruct (fold_left _ l og) as [g|]; assumption.
Qed.

End GroupFacts.

Section PushedFacts.
Context {NetworkRecord ScriptCoverage : Type}.
Variable env : Env NetworkRecord ScriptCoverage.

Lemma outcome_item_scaled entry item :
  outcome_item (process_entry env entry) = Some item ->
  exists script networkRecord,
    scaling_reached env entry script networkRecord
    /\ let s := summary_for env entry in
       let transfer := estimateTransferSize env networkRecord (Summary.totalBytes s) in
       let candidate :=
         scaled_item script s (transferRatio_of transfer s)
           (classifiedEntities_byURL env (Script.url script)) in
       Item.totalBytes item = Item.totalBytes candidate
       /\ Item.wastedBytes item = Item.wastedBytes candidate
       /\ Item.wastedPercent item = Item.wastedPercent candidate
       /\ process_entry env entry =
          if num_le (Item.wastedBytes item) (unusedThreshold env)
          then Continue_below_threshold item
          else Pushed item (classifiedEntities_byURL env (Script.url script)).
Proof.
  intros H. destruct (process_entry_inv env entry item H) as (script & nr & Hr).
  exists script, nr. split; [assumption|].
  pose proof (process_entry_scaled env entry script nr Hr) as E. cbv zeta in *.
  set (candidate := scaled_item _ _ _ _) in *.
  rewrite E in H. rewrite E.
  destruct (num_le (Item.wastedBytes candidate) (unusedThreshold env)) eqn:Hle;
    cbn [outcome_item] in H; injection H as <-;
    cbn [set_subItems Item.totalBytes Item.wastedBytes Item.wastedPercent];
    rewrite Hle; auto.
Qed.

Lemma pushed_bytes k item :
  In (k, item) (pushed env) ->
  exists entry script networkRecord,
    In entry (JsUsage env)
    /\ scaling_reached env entry script networkRecord
    /\ let s := summary_for env entry in
       let transfer := estimateTransferSize env networkRecord (Summary.totalBytes s) in
       item_bytes item
         (round_scaled transfer (Summary.totalBytes s) (Summary.wastedBytes s))
         (Z.of_N transfer)
       /\ Item.wastedPercent item = Summary.wastedPercent s.
Proof.
  intros H. apply pushed_In in H as (entry & Hin & H).
  assert (Ho : outcome_item (process_entry env entry) = Some item) by now rewrite H.
  apply outcome_item_scaled in Ho as (script & nr & Hr & Ht & Hw & Hp & _).
  exists entry, script, nr. split; [assumption|]. split; [assumption|].
  destruct Hr as (_ & _ & _ & HT).
  destruct (scaled_item_bytes script (summary_for env entry)
              (estimateTransferSize env nr (Summary.totalBytes (summary_for env entry)))
              (classifiedEntities_byURL env (Script.url script)) HT) as [Ht' Hw'].
  cbv zeta. unfold item_bytes. rewrite Ht, Hw, Hp. auto.
Qed.

Lemma pushed_item_bytes p :
  In p (pushed env) -> exists w t, item_bytes (snd p) w t.
Proof.
  destruct p as [k item]. intros H.
  apply pushed_bytes in H as (entry & script & nr & _ & _ & H & _). eauto.
Qed.

End PushedFacts.

Section ThresholdFacts.

Lemma num_of_Z_inj a b : num_of_Z a = num_of_Z b -> a = b.
Proof. unfold num_of_Z, inject_Z. congruence. Qed.




End ThresholdFacts.

Section InclusionAndScaling.
Context {NetworkRecord ScriptCoverage : Type}.
Variable env : Env NetworkRecord ScriptCoverage.



(** Claim C10.  An entry whose summary has [wastedBytes = 0] or
    [totalBytes = 0] leaves the iteration through one of the first three
    [continue] statements, before any scaling, and changes nothing.
    Whenever an iteration does build a scaled item, [totalBytes] is not
    zero, and the transfer ratio is the finite quotient
    [transfer / totalBytes]. *)
Theorem empty_summary_skipped entry :
  let s := summary_for env entry in
  (Summary.wastedBytes s = 0%N \/ Summary.totalBytes s = 0%N ->
   (process_entry env entry = Continue_no_script
    \/ process_entry env entry = Continue_no_networkRecord
    \/ process_entry env entry = Continue_empty_summary)
   /\ forall st, loop_body env st entry = st)
  /\ (forall item,
         outcome_item (process_entry env entry) = Some item ->
         Summary.wastedBytes s <> 0%N
         /\ Summary.totalBytes s <> 0%N
         /\ forall transfer,
             transferRatio_of transfer s
             = Num (Qred (inject_Z (Z.of_N transfer)
                          / inject_Z (Z.of_N (Summary.totalBytes s))))).
Proof.
  cbv zeta. split.
  - intros Hz.
    assert (Hguard : ((Summary.wastedBytes (summary_for env entry) =? 0)%N
                      || (Summary.totalBytes (summary_for env entry) =? 0)%N)%bool = true).
    { apply orb_true_iff. rewrite !N.eqb_eq. exact Hz. }
    assert (Hcases : process_entry env entry = Continue_no_script
                     \/ process_entry env entry = Continue_no_networkRecord
                     \/ process_entry env entry = Continue_empty_summary).
    { unfold process_entry.
      destruct (find _ (Scripts env)) as [script|]; [|now left].
      destruct (getRequestForScript env script); [|now right; left].
      cbv zeta. rewrite Hguard. now right; right. }
    split; [assumption|].
    intros st. unfold loop_body.
    destruct Hcases as [-> | [-> | ->]]; reflexivity.
  - intros item H. destruct (process_entry_inv env entry item H) as (script & nr & Hr).
    destruct Hr as (_ & _ & HW & HT). repeat split; try assumption.
    intros transfer. unfold transferRatio_of. now apply num_div_N.
Qed.

(** Claim C7.  When the bundle of a script is absent, or its [sizes]
    carry the error marker, a script that passes the skip tests and the
    threshold is still pushed, with its scaled figures and without
    sub-items; it is rolled up into the group of its entity, it is in the
    reported items, and that group is in the reported groups. *)
Theorem bundle_failure_keeps_item entry script networkRecord :
  scaling_reached env entry script networkRecord ->
  (bundle_for env (fst entry) = None
   \/ exists b errorMessage,
       bundle_for env (fst entry) = Some b /\ Bundle.sizes b = SizesError errorMessage) ->
  let s := summary_for env entry in
  let transfer := estimateTransferSize env networkRecord (Summary.totalBytes s) in
  let classifiedEntity := classifiedEntities_byURL env (Script.url script) in
  let item := scaled_item script s (transferRatio_of transfer s) classifiedEntity in
  num_le (Item.wastedBytes item) (unusedThreshold env) = false ->
  process_entry env entry = Pushed item classifiedEntity
  /\ Item.subItems item = None
  /\ (forall st,
         loop_body env st entry
         = {| byEntity := roll_up (byEntity st) classifiedEntity item;
              items := items st ++ [item] |})
  /\ (In entry (JsUsage env) ->
      In item (Product.items (audit_ env))
      /\ exists g, Map_get (byEntity (final_state env)) classifiedEntity = Some g
                   /\ In g (Product.groups (audit_ env))
                   /\ In item (contributions classifiedEntity (pushed env))).
Proof.
  intros Hr Hb. cbv zeta. intros Hthr.
  pose proof (process_entry_scaled env entry script networkRecord Hr) as E.
  cbv zeta in E. rewrite Hthr in E.
  assert (Hsub : subItems_of env (bundle_for env (fst entry)) (summary_for env entry)
                   (transferRatio_of
                      (estimateTransferSize env networkRecord
                         (Summary.totalBytes (summary_for env entry)))
                      (summary_for env entry)) = None).
  { destruct Hb as [-> | (b & msg & -> & Hs)]; [reflexivity|].
    cbn. now rewrite Hs. }
  rewrite Hsub in E. change (set_subItems ?i None) with i in E.
  split; [exact E|]. split; [reflexivity|]. split.
  - intros st. unfold loop_body. now rewrite E.
  - intros Hin.
    assert (Hp : In (classifiedEntities_byURL env (Script.url script),
                     scaled_item script (summary_for env entry)
                       (transferRatio_of
                          (estimateTransferSize env networkRecord
                             (Summary.totalBytes (summary_for env entry)))
                          (summary_for env entry))
                       (classifiedEntities_byURL env (Script.url script)))
                    (pushed env)).
    { apply pushed_In. eauto. }
    split; [apply audit_items_In; eauto|].
    assert (Hc : In (scaled_item script (summary_for env entry)
                       (transferRatio_of
                          (estimateTransferSize env networkRecord
                             (Summary.totalBytes (summary_for env entry)))
                          (summary_for env entry))
                       (classifiedEntities_byURL env (Script.url script)))
                    (contributions (classifiedEntities_byURL env (Script.url script))
                       (pushed env))).
    { unfold contributions. apply in_map_iff. eexists. split; [|apply filter_In; split; [exact Hp|]].
      - reflexivity.
      - apply same_key_refl. }
    pose proof (group_fold_spec (classifiedEntities_byURL env (Script.url script))
                  (pushed env) (pushed_item_bytes env) None 0%Z 0%Z (conj eq_refl eq_refl))
      as Hg.
    unfold group_fold in Hg. rewrite <- (fold_roll_up_get (pushed env) [] _) in Hg.
    rewrite <- final_byEntity in Hg.
    destruct (Map_get (byEntity (final_state env)) _) as [g|] eqn:Eg.
    + exists g. repeat split; [|assumption]. unfold audit_. simpl.
      eapply Map_get_In. exact Eg.
    + destruct Hg as [_ Hnil]. rewrite Hnil in Hc. destruct Hc.
Qed.

End InclusionAndScaling.

Section SumFacts.

Lemma combine_fst_snd {A B : Type} (m : list (A * B)) :
  combine (List.map fst m) (List.map snd m) = m.
Proof. induction m as [|[a b] m IH]; simpl; [reflexivity | now rewrite IH]. Qed.


End SumFacts.

Section DistinctKeys.

Lemma Map_set_distinct m k v : keys_distinct m -> keys_distinct (Map_set m k v).
Proof.
  induction m as [|[k0 v0] m IH]; cbn [Map_set keys_distinct].
  - intros _. split; [intros k' []| exact I].
  - intros [Hk0 Hm]. destruct (same_key k0 k) eqn:E; cbn [keys_distinct].
    + split; assumption.
    + split; [|auto]. intros k'. rewrite Map_set_keys.
      destruct (existsb _ _); [apply Hk0|].
      rewrite in_app_iff. intros [H|[<-|[]]]; auto.
Qed.

Lemma Map_get_of_In m k g : keys_distinct m -> In (k, g) m -> Map_get m k = Some g.
Proof.
  induction m as [|[k0 v0] m IH]; cbn [Map_get keys_distinct In]; [intros _ []|].
  intros [Hk0 Hm] [H|H].
  - injection H as -> ->. now rewrite same_key_refl.
  - rewrite (Hk0 k); [auto|]. apply in_map_iff. now exists (k, g).
Qed.

Lemma fold_roll_up_distinct l m :
  keys_distinct m ->
  keys_distinct (fold_left (fun m p => roll_up m (fst p) (snd p)) l m).
Proof.
  revert m. induction l as [|p l IH]; intros m Hm; cbn [fold_left]; [assumption|].
  apply IH. rewrite roll_up_absorb. now apply Map_set_distinct.
Qed.

End DistinctKeys.

Section Grouping.
Context {NetworkRecord ScriptCoverage : Type}.
Variable env : Env NetworkRecord ScriptCoverage.

Lemma final_group k :
  Map_get (byEntity (final_state env)) k = group_fold k (pushed env) None.
Proof. rewrite final_byEntity. apply fold_roll_up_get. Qed.

Lemma final_groups_In g :
  In g (Product.groups (audit_ env)) ->
  exists k, Map_get (byEntity (final_state env)) k = Some g.
Proof.
  unfold audit_. cbn [Product.groups]. intros H.
  apply Map_values_In in H as [k H]. exists k.
  apply Map_get_of_In; [|assumption].
  rewrite final_byEntity. apply fold_roll_up_distinct. exact I.
Qed.

(** Claim C8.  The reported items are the items of the qualifying
    entries in the iteration order of [JsUsage].  The keys of the entity
    map are the classifications of the pushed items, each in the place of
    its first occurrence, and the reported groups are the groups of these
    keys in that order. *)
Theorem order_preserved :
  Product.items (audit_ env)
  = flat_map
      (fun entry =>
         match process_entry env entry with
         | Pushed item _ => [item]
         | _ => []
         end)
      (JsUsage env)
  /\ List.map fst (byEntity (final_state env)) = first_seen (List.map fst (pushed env))
  /\ byEntity (final_state env)
     = combine (first_seen (List.map fst (pushed env))) (Product.groups (audit_ env)).
Proof.
  assert (Hkeys : List.map fst (byEntity (final_state env))
                  = first_seen (List.map fst (pushed env))).
  { rewrite final_byEntity. apply (fold_roll_up_keys (pushed env) []). }
  split; [|split; [exact Hkeys|]].
  - rewrite audit_items. unfold pushed.
    induction (JsUsage env) as [|e l IH]; simpl; [reflexivity|].
    rewrite map_app, IH. now destruct (process_entry env e).
  - rewrite <- Hkeys. unfold audit_, Map_values. cbn [Product.groups].
    symmetry. apply combine_fst_snd.
Qed.

Lemma final_group_spec k :
  match Map_get (byEntity (final_state env)) k with
  | None => contributions k (pushed env) = []
  | Some g =>
      Group.wastedBytes g = num_sum (List.map Item.wastedBytes (contributions k (pushed env)))
      /\ Group.totalBytes g = num_sum (List.map Item.totalBytes (contributions k (pushed env)))
      /\ percent_ok g
      /\ contributions k (pushed env) <> []
  end.
Proof.
  rewrite final_group.
  pose proof (group_fold_spec k (pushed env) (pushed_item_bytes env) None 0%Z 0%Z
                (conj eq_refl eq_refl)) as H.
  destruct (group_fold k (pushed env) None) as [g|].
  - destruct H as (Hw & Ht & Hp & Hne). auto.
  - apply H.
Qed.

(** Claim C5.  Every pushed item has a group under the key of its
    classification, the reported groups are exactly the groups of the map,
    and the group found under a key [k] has received at least one item,
    has as [totalBytes] and [wastedBytes] the sums of the scaled figures
    of the pushed items whose classification is the same object as [k]
    (or is absent when [k] is), and has as [wastedPercent] the percentage
    recomputed from these two totals.  Keys are compared by the identity
    of the entity object, never by its name. *)
Theorem entity_groups_accumulate :
  (forall k item,
      In (k, item) (pushed env) ->
      exists g, Map_get (byEntity (final_state env)) k = Some g)
  /\ (forall g,
         In g (Product.groups (audit_ env)) <->
         exists k, Map_get (byEntity (final_state env)) k = Some g)
  /\ (forall k g,
         Map_get (byEntity (final_state env)) k = Some g ->
         let contributed := contributions k (pushed env) in
         contributed <> []
         /\ Group.totalBytes g = num_sum (List.map Item.totalBytes contributed)
         /\ Group.wastedBytes g = num_sum (List.map Item.wastedBytes contributed)
         /\ Group.wastedPercent g
            = Some (num_mul (num_div (Group.wastedBytes g) (Group.totalBytes g))
                            (num_of_Z 100))).
Proof.
  pose proof (final_group_spec) as Hspec.
  split; [|split].
  - intros k item Hin. specialize (Hspec k).
    destruct (Map_get _ k) as [g|]; [eauto|].
    assert (Hc : In item (contributions k (pushed env))).
    { unfold contributions. apply in_map_iff. exists (k, item). split; [reflexivity|].
      apply filter_In. split; [assumption | apply same_key_refl]. }
    rewrite Hspec in Hc. destruct Hc.
  - intros g. split; [apply final_groups_In|].
    intros [k Hk]. unfold audit_. cbn [Product.groups]. eapply Map_get_In. exact Hk.
  - intros k g Hk. specialize (Hspec k). rewrite Hk in Hspec.
    destruct Hspec as (Hw & Ht & Hp & Hne). cbv zeta. auto.
Qed.

End Grouping.

Section RoundingFacts.


End RoundingFacts.

Section Invariants.
Context {NetworkRecord ScriptCoverage : Type}.
Variable env : Env NetworkRecord ScriptCoverage.



End Invariants.

(* ===================================================================== *)
(** * Sorting *)
(* ===================================================================== *)

Section SortFacts.
Variable A : Type.
Variable compareFn : A -> A -> Z.

(** [a] may stand before [b] when [compareFn a b <= 0]. *)
Hypothesis before_total :
  forall a b, ~ (compareFn a b <= 0)%Z -> (compareFn b a <= 0)%Z.
Hypothesis before_trans :
  forall a b c,
    (compareFn a b <= 0)%Z -> (compareFn b c <= 0)%Z -> (compareFn a c <= 0)%Z.

Lemma sort_insert_perm x l : Permutation (x :: l) (sort_insert compareFn x l).
Proof.
  induction l as [|y l IH]; cbn [sort_insert]; [reflexivity|].
  destruct (compareFn x y <=? 0)%Z; [reflexivity|].
  rewrite perm_swap. now constructor.
Qed.

Lemma Array_sort_perm l : Permutation l (Array_sort compareFn l).
Proof.
  induction l as [|x l IH]; cbn; [reflexivity|].
  rewrite <- sort_insert_perm. now constructor.
Qed.

Lemma sort_insert_sorted x l :
  StronglySorted (fun a b => (compareFn a b <= 0)%Z) l ->
  StronglySorted (fun a b => (compareFn a b <= 0)%Z) (sort_insert compareFn x l).
Proof.
  induction 1 as [|y l Hl IH Hy]; cbn [sort_insert].
  - repeat constructor.
  - destruct (Z.leb_spec (compareFn x y) 0) as [Hxy|Hxy].
    + constructor; [now constructor|].
      constructor; [exact Hxy|].
      eapply Forall_impl; [|exact Hy]. intros z. cbv beta. now apply before_trans.
    + constructor; [exact IH|].
      eapply Permutation_Forall; [apply sort_insert_perm|].
      constructor; [|exact Hy]. apply before_total. lia.
Qed.

Lemma Array_sort_sorted l :
  StronglySorted (fun a b => (compareFn a b <= 0)%Z) (Array_sort compareFn l).
Proof.
  induction l as [|x l IH]; cbn; [constructor | now apply sort_insert_sorted].
Qed.

End SortFacts.

Section SortedLists.
Context {A B : Type}.

Lemma StronglySorted_firstn (R : A -> A -> Prop) n l :
  StronglySorted R l -> StronglySorted R (firstn n l).
Proof.
  intros H. revert n. induction H as [|a l Hl IH Ha]; intros [|n]; cbn; try constructor.
  - apply IH.
  - rewrite Forall_forall in *. intros x Hx. apply Ha.
    rewrite <- (firstn_skipn n l). apply in_or_app. now left.
Qed.

Lemma StronglySorted_map (R : A -> A -> Prop) (R' : B -> B -> Prop) (f : A -> B) l :
  (forall a b, R a b -> R' (f a) (f b)) ->
  StronglySorted R l -> StronglySorted R' (List.map f l).
Proof.
  intros Hf. induction 1 as [|a l Hl IH Ha]; cbn; constructor; [exact IH|].
  rewrite Forall_forall in *. intros y Hy.
  apply in_map_iff in Hy as (x & <- & Hx). auto.
Qed.

Lemma StronglySorted_filter (R : A -> A -> Prop) (p : A -> bool) l :
  StronglySorted R l -> StronglySorted R (filter p l).
Proof.
  induction 1 as [|a l Hl IH Ha]; cbn; [constructor|].
  destruct (p a); [|exact IH]. constructor; [exact IH|].
  rewrite Forall_forall in *. intros x Hx. apply filter_In in Hx as [Hx _]. auto.
Qed.

Lemma filter_length_le (p : A -> bool) l : (length (filter p l) <= length l)%nat.
Proof. induction l as [|a l IH]; cbn; [lia|]. destruct (p a); cbn; lia. Qed.

End SortedLists.

Section SubItemFacts.
Context {NetworkRecord ScriptCoverage : Type}.
Variable env : Env NetworkRecord ScriptCoverage.

Lemma ranked_sorted files unmappedBytes sourcesWastedBytes (t T : N) :
  T <> 0%N ->
  StronglySorted
    (fun a b => num_ge (SourceSize.unused a) (SourceSize.unused b) = true)
    (rankedSourceSizes files unmappedBytes sourcesWastedBytes
       (num_div (num_of_N t) (num_of_N T))).
Proof.
  intros HT. unfold rankedSourceSizes.
  apply StronglySorted_map
    with (R := fun a b : jsstring * N => (Z.of_N (snd b) - Z.of_N (snd a) <= 0)%Z).
  - intros a b Hab. cbn [SourceSize.unused]. unfold num_ge.
    rewrite !round_mul_ratio, num_le_int by assumption.
    apply Z.leb_le, round_scaled_mono. lia.
  - apply StronglySorted_firstn, Array_sort_sorted.
    + intros a b. lia.
    + intros a b c. lia.
Qed.

Lemma ranked_length files unmappedBytes sourcesWastedBytes transferRatio :
  (length (rankedSourceSizes files unmappedBytes sourcesWastedBytes transferRatio) <= 5)%nat.
Proof. unfold rankedSourceSizes. rewrite length_map. apply firstn_le_length. Qed.

Lemma subItems_of_Some bundle s transferRatio subs :
  subItems_of env bundle s transferRatio = Some subs ->
  exists b files unmappedBytes sourcesWastedBytes,
    bundle = Some b
    /\ Bundle.sizes b = SizesOk files unmappedBytes
    /\ Summary.sourcesWastedBytes s = Some sourcesWastedBytes
    /\ subs = subItems_items env b files unmappedBytes sourcesWastedBytes transferRatio.
Proof.
  unfold subItems_of. destruct bundle as [b|]; [|discriminate].
  destruct (Bundle.sizes b) as [msg|files unmappedBytes] eqn:Es; [discriminate|].
  destruct (Summary.sourcesWastedBytes s) as [swb|] eqn:Ew; [|discriminate].
  injection 1 as <-. exists b, files, unmappedBytes, swb. auto.
Qed.

Lemma pushed_subItems entry item ce :
  process_entry env entry = Pushed item ce ->
  exists script networkRecord,
    scaling_reached env entry script networkRecord
    /\ let s := summary_for env entry in
       let transfer := estimateTransferSize env networkRecord (Summary.totalBytes s) in
       Item.subItems item
       = subItems_of env (bundle_for env (fst entry)) s (transferRatio_of transfer s).
Proof.
  intros H.
  assert (Ho : outcome_item (process_entry env entry) = Some item) by now rewrite H.
  destruct (process_entry_inv env entry item Ho) as (script & nr & Hr).
  exists script, nr. split; [assumption|].
  pose proof (process_entry_scaled env entry script nr Hr) as E. cbv zeta in *.
  rewrite E in H. destruct (num_le _ _); [discriminate|].
  injection H as <- _. reflexivity.
Qed.

(** Claim C9.  The sub-items of a reported item are at most five and
    stand in descending order of [sourceWastedBytes]. *)
Theorem subItems_capped_and_sorted item subs :
  In item (Product.items (audit_ env)) ->
  Item.subItems item = Some subs ->
  (length subs <= 5)%nat /\ StronglySorted descending_waste subs.
Proof.
  intros Hin Hsubs.
  apply audit_items_In in Hin as (entry & ce & _ & Hp).
  apply pushed_subItems in Hp as (script & nr & Hr & Hs). cbv zeta in Hs.
  rewrite Hs in Hsubs.
  apply subItems_of_Some in Hsubs as (b & files & unmapped & swb & _ & _ & _ & ->).
  unfold subItems_items, topUnusedSourceSizes. split.
  - rewrite length_map.
    etransitivity; [apply filter_length_le | apply ranked_length].
  - eapply StronglySorted_map;
      [|apply StronglySorted_filter, ranked_sorted; apply Hr].
    intros d d' Hd. exact Hd.
Qed.

(** Claim C1, amended.  For a pushed item whose bundle has computed sizes
    and whose summary has [sourcesWastedBytes], the sub-items are the
    five top-ranked sources, scaled and rounded, whose wasted bytes are at
    or above [bundleSourceUnusedThreshold]: a ranked source at or above
    the threshold is emitted, one strictly below it is not, and every
    emitted sub-item is at or above the threshold. *)
Theorem subItems_threshold entry item ce script networkRecord
    b files unmappedBytes sourcesWastedBytes :
  process_entry env entry = Pushed item ce ->
  scaling_reached env entry script networkRecord ->
  bundle_for env (fst entry) = Some b ->
  Bundle.sizes b = SizesOk files unmappedBytes ->
  Summary.sourcesWastedBytes (summary_for env entry) = Some sourcesWastedBytes ->
  let s := summary_for env entry in
  let transfer := estimateTransferSize env networkRecord (Summary.totalBytes s) in
  let ranked :=
    rankedSourceSizes files unmappedBytes sourcesWastedBytes (transferRatio_of transfer s) in
  let commonSourcePrefix := commonPrefix (Bundle.sourceURLs b) in
  exists subs,
    Item.subItems item = Some subs
    /\ subs = List.map (to_subItem commonSourcePrefix)
                (filter (fun d => num_ge (SourceSize.unused d)
                                         (bundleSourceUnusedThreshold env)) ranked)
    /\ (forall d, In d ranked ->
                  num_ge (SourceSize.unused d) (bundleSourceUnusedThreshold env) = true ->
                  In (to_subItem commonSourcePrefix d) subs)
    /\ (forall d, In d ranked ->
                  num_ge (SourceSize.unused d) (bundleSourceUnusedThreshold env) = false ->
                  ~ In (to_subItem commonSourcePrefix d) subs)
    /\ (forall sub, In sub subs ->
                    num_ge (SubItem.sourceWastedBytes sub)
                           (bundleSourceUnusedThreshold env) = true).
Proof.
  intros Hp Hr Hb Hs Hw. cbv zeta.
  pose proof (process_entry_scaled env entry script networkRecord Hr) as E.
  cbv zeta in E. rewrite E in Hp. destruct (num_le _ (unusedThreshold env)); [discriminate|].
  injection Hp as <- _. cbn [set_subItems Item.subItems].
  unfold subItems_of. rewrite Hb, Hs, Hw.
  eexists. split; [reflexivity|]. split; [reflexivity|].
  unfold subItems_items, topUnusedSourceSizes.
  assert (Hall : forall sub,
             In sub (List.map (to_subItem (commonPrefix (Bundle.sourceURLs b)))
                       (filter (fun d => num_ge (SourceSize.unused d)
                                                (bundleSourceUnusedThreshold env))
                          (rankedSourceSizes files unmappedBytes sourcesWastedBytes
                             (transferRatio_of
                                (estimateTransferSize env networkRecord
                                   (Summary.totalBytes (summary_for env entry)))
                                (summary_for env entry))))) ->
             num_ge (SubItem.sourceWastedBytes sub) (bundleSourceUnusedThreshold env) = true).
  { intros sub Hsub. apply in_map_iff in Hsub as (d & <- & Hd).
    apply filter_In in Hd as [_ Hd]. exact Hd. }
  split; [|split; [|exact Hall]].
  - intros d Hd Hge. apply in_map. apply filter_In. split; assumption.
  - intros d Hd Hlt Hin. apply Hall in Hin.
    cbn [to_subItem SubItem.sourceWastedBytes] in Hin. congruence.
Qed.

End SubItemFacts.

(* ===================================================================== *)
(** * The scenarios of the specification *)
(* ===================================================================== *)

Example commonPrefix_ex :
  commonPrefix [js "src/app/a.js"; js "src/app/b.js"; js "src/lib/c.js"] = js "src/".
Proof. reflexivity. Qed.

Lemma trimCommonPrefix_empty (s : jsstring) : trimCommonPrefix s [] = s.
Proof. reflexivity. Qed.

Lemma trimCommonPrefix_prefix (prefix rest : jsstring) :
  prefix <> [] -> trimCommonPrefix (prefix ++ rest) prefix = ellipsis ++ rest.
Proof.
  intros Hne. unfold trimCommonPrefix. destruct prefix as [|c prefix]; [congruence|].
  assert (H : startsWith ((c :: prefix) ++ rest) (c :: prefix) = true)
    by (apply startsWith_iff; now exists rest).
  rewrite H. unfold slice_from. f_equal.
  rewrite skipn_app, skipn_all, Nat.sub_diag. reflexivity.
Qed.

Example default_thresholds :
  unusedThreshold run_plain = num_of_Z 20480
  /\ bundleSourceUnusedThreshold run_plain = num_of_Z 512.
Proof. split; reflexivity. Qed.

(** Scenario 1: transfer size 100000, ratio 1: the item is included with
    50000 wasted bytes. *)
Example scenario_included :
  Product.items (audit_ run_plain) = [item_half_used].
Proof. vm_compute. reflexivity. Qed.

(** Scenario 2: transfer size 10000, ratio 1/10: 5000 wasted bytes after
    scaling, below the default threshold, and the item is excluded. *)
Example scenario_excluded :
  process_entry (table_env [(js "1", (10000%N, half_used, None))] [] None) entry_1
  = Continue_below_threshold
      {| Item.url := js "1";
         Item.totalBytes := num_of_Z 10000;
         Item.wastedBytes := num_of_Z 5000;
         Item.wastedPercent := num_of_Z 50;
         Item.entity := None;
         Item.subItems := None |}
  /\ audit_ (table_env [(js "1", (10000%N, half_used, None))] [] None)
     = {| Product.items := []; Product.groups := [] |}.
Proof. split; vm_compute; reflexivity. Qed.

(** Scenario 4: of two sources wasting 100 and 8000 bytes only the second
    is a sub-item. *)
Example scenario_sources :
  option_map (List.map SubItem.source)
    (Item.subItems
       (hd item_half_used
          (Product.items
             (audit_
                (table_env
                   [(js "1", (100000%N,
                              Summary.mk 100000 50000 (num_of_Z 50)
                                (Some [(js "a.js", 100%N); (js "b.js", 8000%N)]),
                              None))]
                   [Bundle.mk (js "1")
                      (SizesOk [(js "a.js", 1000%N); (js "b.js", 9000%N)] 0)
                      [js "a.js"; js "b.js"]]
                   None)))))
  = Some [js "b.js"].
Proof. vm_compute. reflexivity. Qed.

(** Scenario 3, with a namesake entity added: two groups, in the order
    their entities were first met. *)
Example scenario_entities :
  Product.groups (audit_ run_entities)
  = [ group_acme;
      {| Group.text := js "Acme";
         Group.href := js "#";
         Group.entity := js "Acme";
         Group.wastedBytes := num_of_Z 30000;
         Group.totalBytes := num_of_Z 60000;
         Group.wastedPercent := Some (num_of_Z 50) |} ].
Proof. vm_compute. reflexivity. Qed.

(** The run with a bundle of seven sources, in full. *)
Example run_bundle_value :
  audit_ run_bundle
  = {| Product.items := [item_bundle];
       Product.groups :=
         [ {| Group.text := []; Group.href := js "#"; Group.entity := [];
              Group.wastedBytes := num_of_Z 50000;
              Group.totalBytes := num_of_Z 100000;
              Group.wastedPercent := Some (num_of_Z 50) |} ] |}.
Proof. vm_compute. reflexivity. Qed.

(* ===================================================================== *)
(** * The properties on the sample runs *)
(* ===================================================================== *)

(** C6 on three source paths. *)
Lemma commonPrefix_witness :
  let paths := [js "src/app/a.js"; js "src/app/b.js"; js "src/lib/c.js"] in
  paths <> []
  /\ commonPrefix paths = js "src/"
  /\ (forall s, In s paths -> startsWith s (js "src/") = true)
  /\ forall c, ~ (forall s, In s paths -> startsWith s (js "src/" ++ [c]) = true).
Proof.
  cbv zeta.
  pose proof (commonPrefix_longest_common_prefix
                [js "src/app/a.js"; js "src/app/b.js"; js "src/lib/c.js"])
    as (Hpre & _ & Hmax & _).
  split; [discriminate|]. split; [reflexivity|]. split.
  - exact Hpre.
  - apply Hmax. discriminate.
Defined.



(** C10 on a summary without waste. *)
Lemma empty_summary_skipped_witness :
  Summary.wastedBytes (summary_for run_no_waste entry_1) = 0%N
  /\ process_entry run_no_waste entry_1 = Continue_empty_summary
  /\ forall st, loop_body run_no_waste st entry_1 = st.
Proof.
  assert (Hz : Summary.wastedBytes (summary_for run_no_waste entry_1) = 0%N) by reflexivity.
  destruct (empty_summary_skipped run_no_waste entry_1) as [Hskip _].
  destruct (Hskip (or_introl Hz)) as [Hcases Hst].
  split; [exact Hz|]. split; [|exact Hst].
  vm_compute. reflexivity.
Defined.

(** C7 on a bundle that carries an error marker. *)
Lemma bundle_failure_keeps_item_witness :
  scaling_reached run_broken_bundle entry_1 script_1 100000%N
  /\ bundle_for run_broken_bundle (js "1") = Some broken_bundle
  /\ process_entry run_broken_bundle entry_1 = Pushed item_half_used None
  /\ Product.items (audit_ run_broken_bundle) = [item_half_used]
  /\ In item_half_used (Product.items (audit_ run_broken_bundle))
  /\ exists g, Map_get (byEntity (final_state run_broken_bundle)) None = Some g
               /\ In g (Product.groups (audit_ run_broken_bundle))
               /\ In item_half_used (contributions None (pushed run_broken_bundle)).
Proof.
  assert (Hr : scaling_reached run_broken_bundle entry_1 script_1 100000%N).
  { repeat split; try reflexivity; vm_compute; discriminate. }
  assert (Hb : bundle_for run_broken_bundle (fst entry_1) = None
               \/ exists b errorMessage,
                   bundle_for run_broken_bundle (fst entry_1) = Some b
                   /\ Bundle.sizes b = SizesError errorMessage).
  { right. exists broken_bundle, (js "map is broken"). split; reflexivity. }
  pose proof (bundle_failure_keeps_item run_broken_bundle entry_1 script_1 100000%N Hr Hb)
    as H.
  cbv zeta in H.
  assert (Hthr : num_le
                   (Item.wastedBytes
                      (scaled_item script_1 (summary_for run_broken_bundle entry_1)
                         (transferRatio_of
                            (estimateTransferSize run_broken_bundle 100000%N
                               (Summary.totalBytes (summary_for run_broken_bundle entry_1)))
                            (summary_for run_broken_bundle entry_1))
                         (classifiedEntities_byURL run_broken_bundle (Script.url script_1))))
                   (unusedThreshold run_broken_bundle) = false)
    by (vm_compute; reflexivity).
  destruct (H Hthr) as (Hout & _ & _ & Hin).
  assert (Hitem : scaled_item script_1 (summary_for run_broken_bundle entry_1)
                    (transferRatio_of
                       (estimateTransferSize run_broken_bundle 100000%N
                          (Summary.totalBytes (summary_for run_broken_bundle entry_1)))
                       (summary_for run_broken_bundle entry_1))
                    (classifiedEntities_byURL run_broken_bundle (Script.url script_1))
                  = item_half_used) by (vm_compute; reflexivity).
  rewrite Hitem in Hout, Hin.
  split; [exact Hr|]. split; [reflexivity|]. split; [exact Hout|].
  split; [vm_compute; reflexivity|].
  apply Hin. left. reflexivity.
Defined.

(** C5 on two scripts of one entity and a third of a namesake: the
    namesake is a group of its own. *)
Lemma entity_groups_accumulate_witness :
  Map_get (byEntity (final_state run_entities)) (Some acme) = Some group_acme
  /\ Entity.name acme = Entity.name acme_twin
  /\ length (Product.groups (audit_ run_entities)) = 2%nat
  /\ length (contributions (Some acme) (pushed run_entities)) = 2%nat
  /\ Group.totalBytes group_acme
     = num_sum (List.map Item.totalBytes (contributions (Some acme) (pushed run_entities)))
  /\ Group.wastedBytes group_acme
     = num_sum (List.map Item.wastedBytes (contributions (Some acme) (pushed run_entities)))
  /\ Group.wastedPercent group_acme
     = Some (num_mul (num_div (Group.wastedBytes group_acme) (Group.totalBytes group_acme))
                     (num_of_Z 100))
  /\ In group_acme (Product.groups (audit_ run_entities)).
Proof.
  assert (Hget : Map_get (byEntity (final_state run_entities)) (Some acme) = Some group_acme)
    by (vm_compute; reflexivity).
  destruct (entity_groups_accumulate run_entities) as (_ & Hgroups & Hsum).
  destruct (Hsum (Some acme) group_acme Hget) as (_ & Ht & Hw & Hp).
  split; [exact Hget|]. split; [reflexivity|]. split; [vm_compute; reflexivity|].
  split; [vm_compute; reflexivity|]. split; [exact Ht|]. split; [exact Hw|].
  split; [exact Hp|]. apply Hgroups. exists (Some acme). exact Hget.
Defined.

(** C9 on a bundle of seven sources. *)
Lemma subItems_capped_and_sorted_witness :
  In item_bundle (Product.items (audit_ run_bundle))
  /\ Item.subItems item_bundle = Some subItems_bundle
  /\ (length subItems_bundle <= 5)%nat
  /\ StronglySorted descending_waste subItems_bundle.
Proof.
  assert (Hin : In item_bundle (Product.items (audit_ run_bundle))).
  { left. vm_compute. reflexivity. }
  assert (Hs : Item.subItems item_bundle = Some subItems_bundle) by reflexivity.
  split; [exact Hin|]. split; [exact Hs|].
  exact (subItems_capped_and_sorted run_bundle item_bundle subItems_bundle Hin Hs).
Defined.

(** C1 as stated fails: a source wasting exactly the threshold of 512
    bytes is among the sub-items. *)
Lemma subItems_threshold_counterexample :
  exists item subs sub,
    In item (Product.items (audit_ run_bundle))
    /\ Item.subItems item = Some subs
    /\ In sub subs
    /\ SubItem.sourceWastedBytes sub = bundleSourceUnusedThreshold run_bundle
    /\ num_le (SubItem.sourceWastedBytes sub) (bundleSourceUnusedThreshold run_bundle) = true.
Proof.
  exists item_bundle, subItems_bundle,
    (SubItem.mk (ellipsis ++ js "a.js") (num_of_Z 1000) (num_of_Z 512)).
  split; [left; vm_compute; reflexivity|].
  split; [reflexivity|].
  split; [do 4 right; left; reflexivity|].
  split; reflexivity.
Qed.

(** C1, amended, on the same bundle. *)
Lemma subItems_threshold_witness :
  process_entry run_bundle entry_1 = Pushed item_bundle None
  /\ scaling_reached run_bundle entry_1 script_1 100000%N
  /\ Item.subItems item_bundle = Some subItems_bundle
  /\ forall sub, In sub subItems_bundle ->
                 num_ge (SubItem.sourceWastedBytes sub)
                        (bundleSourceUnusedThreshold run_bundle) = true.
Proof.
  assert (Hp : process_entry run_bundle entry_1 = Pushed item_bundle None)
    by (vm_compute; reflexivity).
  assert (Hr : scaling_reached run_bundle entry_1 script_1 100000%N).
  { repeat split; try reflexivity; vm_compute; discriminate. }
  destruct (subItems_threshold run_bundle entry_1 item_bundle None script_1 100000%N
              good_bundle _ _ seven_sources Hp Hr eq_refl eq_refl eq_refl)
    as (subs & Hsubs & _ & _ & _ & Hall).
  assert (E : subs = subItems_bundle).
  { cbn [Item.subItems item_bundle] in Hsubs. now injection Hsubs as <-. }
  rewrite E in Hall.
  split; [exact Hp|]. split; [exact Hr|]. split; [reflexivity|]. exact Hall.
Defined.



(* ===================================================================== *)
(** * More on the prefix trimmer *)
(* ===================================================================== *)

Section TrimFacts.

Lemma startsWith_skipn (s p : jsstring) :
  startsWith s p = true -> s = p ++ skipn (length p) s.
Proof.
  intros H. apply startsWith_iff in H as [t ->].
  now rewrite skipn_app, skipn_all, Nat.sub_diag.
Qed.

Lemma startsWith_antisym (p q : jsstring) :
  startsWith p q = true -> startsWith q p = true -> p = q.
Proof.
  intros H1 H2. apply startsWith_iff in H1 as [t ->].
  apply startsWith_length in H2. rewrite length_app in H2.
  destruct t; [now rewrite app_nil_r | simpl in H2; lia].
Qed.

(** What C6 says of [commonPrefix], as a lemma to build on. *)
Lemma commonPrefix_lcp (strings : list jsstring) :
  (forall s, In s strings -> startsWith s (commonPrefix strings) = true)
  /\ (strings <> [] ->
      forall q, (forall s, In s strings -> startsWith s q = true) ->
                startsWith (commonPrefix strings) q = true).
Proof.
  destruct strings as [|first rest]; [split; [intros s []| congruence]|].
  unfold commonPrefix. cbn [length Nat.eqb reduce].
  pose proof (fold_max_spec rest first) as [Hmax_in Hmax].
  pose proof (fold_min_spec rest first) as [Hmin_in Hmin].
  cbv zeta in *.
  set (maxWord := fold_left (fun a b => if str_gt a b then a else b) rest first) in *.
  set (prefix := fold_left (fun a b => if str_gt a b then b else a) rest first) in *.
  destruct (shorten_spec maxWord prefix) as (Hp & Hm & Hlong).
  split.
  - intros s Hs. apply (startsWith_between _ prefix maxWord); auto.
  - intros _ q Hq. apply Hlong; apply Hq; assumption.
Qed.

(** Property X1.  [trimCommonPrefix s prefix] has two cases.  If [prefix] is not
    empty and [s] starts with it, the result is the ellipsis followed by
    what remains of [s] after [prefix], and is one code unit longer than
    that remainder.  Otherwise, when [prefix] is empty or [s] does not
    start with it, the result is [s] itself. *)
Theorem trimCommonPrefix_cases (s prefix : jsstring) :
  (prefix <> [] /\ startsWith s prefix = true
   /\ s = prefix ++ skipn (length prefix) s
   /\ trimCommonPrefix s prefix = ellipsis ++ skipn (length prefix) s
   /\ length (trimCommonPrefix s prefix) = (1 + (length s - length prefix))%nat)
  \/ ((prefix = [] \/ startsWith s prefix = false) /\ trimCommonPrefix s prefix = s).
Proof.
  destruct prefix as [|c prefix]; [right; split; [now left | reflexivity]|].
  unfold trimCommonPrefix.
  destruct (startsWith s (c :: prefix)) eqn:E.
  - left. split; [discriminate|]. split; [reflexivity|].
    split; [now apply startsWith_skipn|]. split; [reflexivity|].
    unfold slice_from. rewrite length_app, length_skipn. reflexivity.
  - right. split; [now right | reflexivity].
Qed.

(** Property X2.  Two strings that both start with [prefix] and are trimmed to the
    same string are the same string: trimming keeps the sources of a
    bundle apart. *)
Theorem trimCommonPrefix_injective (s1 s2 prefix : jsstring) :
  startsWith s1 prefix = true -> startsWith s2 prefix = true ->
  trimCommonPrefix s1 prefix = trimCommonPrefix s2 prefix ->
  s1 = s2.
Proof.
  intros H1 H2. destruct prefix as [|c prefix]; [exact (fun E => E)|].
  unfold trimCommonPrefix. rewrite H1, H2. unfold slice_from. intros E.
  apply app_inv_head in E.
  rewrite (startsWith_skipn _ _ H1), (startsWith_skipn _ _ H2). now rewrite E.
Qed.

(** Property X3.  Every string of a list starts with the [commonPrefix] of the
    list, so trimming it by that prefix never takes the branch for a
    string without the prefix: the result is the ellipsis and the
    remainder, or the string itself when the common prefix is empty. *)
Theorem trim_by_commonPrefix (strings : list jsstring) (s : jsstring) :
  In s strings ->
  let prefix := commonPrefix strings in
  s = prefix ++ skipn (length prefix) s
  /\ trimCommonPrefix s prefix
     = match prefix with
       | [] => s
       | _ :: _ => ellipsis ++ skipn (length prefix) s
       end.
Proof.
  intros Hin. cbv zeta.
  destruct (commonPrefix_lcp strings) as [Hpre _].
  specialize (Hpre s Hin). split; [now apply startsWith_skipn|].
  unfold trimCommonPrefix. destruct (commonPrefix strings) as [|c p]; [reflexivity|].
  now rewrite Hpre.
Qed.

(** Property X4.  [commonPrefix] does not depend on the order of the strings. *)
Theorem commonPrefix_permutation (l l' : list jsstring) :
  Permutation l l' -> commonPrefix l = commonPrefix l'.
Proof.
  intros HP.
  destruct l as [|a l].
  - apply Permutation_nil in HP. now subst.
  - assert (Hne' : l' <> []).
    { intros ->. apply Permutation_sym, Permutation_nil in HP. discriminate. }
    destruct (commonPrefix_lcp (a :: l)) as [Hpre Hmax].
    destruct (commonPrefix_lcp l') as [Hpre' Hmax'].
    apply startsWith_antisym.
    + apply Hmax; [discriminate|]. intros s Hs. apply Hpre'.
      eapply Permutation_in; eassumption.
    + apply Hmax'; [assumption|]. intros s Hs. apply Hpre.
      eapply Permutation_in; [apply Permutation_sym|]; eassumption.
Qed.

(** Property X5.  When one of the strings is a prefix of all of them, it is the
    result of [commonPrefix]; in particular a single string is its own
    common prefix. *)
Theorem commonPrefix_of_shared_element (strings : list jsstring) (s : jsstring) :
  In s strings ->
  (forall x, In x strings -> startsWith x s = true) ->
  commonPrefix strings = s.
Proof.
  intros Hin Hall.
  destruct (commonPrefix_lcp strings) as [Hpre Hmax].
  apply startsWith_antisym.
  - apply Hmax; [|exact Hall]. intros ->. destruct Hin.
  - now apply Hpre.
Qed.

End TrimFacts.

(* ===================================================================== *)
(** * More on the report *)
(* ===================================================================== *)

Section ReportFacts.
Context {NetworkRecord ScriptCoverage : Type}.
Variable env : Env NetworkRecord ScriptCoverage.

(** Everything the loop fixes about a candidate item, in one place. *)
Lemma candidate_fields entry item :
  outcome_item (process_entry env entry) = Some item ->
  exists script networkRecord,
    scaling_reached env entry script networkRecord
    /\ let s := summary_for env entry in
       let transfer := estimateTransferSize env networkRecord (Summary.totalBytes s) in
       Item.url item = Script.url script
       /\ Item.entity item
          = option_map Entity.name (classifiedEntities_byURL env (Script.url script))
       /\ Item.totalBytes item = num_of_N transfer
       /\ Item.wastedBytes item
          = num_of_Z (round_scaled transfer (Summary.totalBytes s) (Summary.wastedBytes s))
       /\ process_entry env entry =
          if num_le (Item.wastedBytes item) (unusedThreshold env)
          then Continue_below_threshold item
          else Pushed item (classifiedEntities_byURL env (Script.url script)).
Proof.
  intros H. destruct (process_entry_inv env entry item H) as (script & nr & Hr).
  exists script, nr. split; [assumption|].
  pose proof (process_entry_scaled env entry script nr Hr) as E. cbv zeta in *.
  assert (HT : Summary.totalBytes (summary_for env entry) <> 0%N) by apply Hr.
  destruct (scaled_item_bytes script (summary_for env entry)
              (estimateTransferSize env nr (Summary.totalBytes (summary_for env entry)))
              (classifiedEntities_byURL env (Script.url script)) HT) as [Ht Hw].
  set (candidate := scaled_item _ _ _ _) in *.
  rewrite E in H. rewrite E.
  destruct (num_le (Item.wastedBytes candidate) (unusedThreshold env)) eqn:Hle;
    cbn [outcome_item] in H; injection H as <-;
    cbn [set_subItems Item.totalBytes Item.wastedBytes Item.url Item.entity];
    rewrite Hle; repeat split; auto.
Qed.



Lemma pushed_nonneg k item :
  In (k, item) (pushed env) ->
  exists w t, item_bytes item w t /\ (0 <= w)%Z /\ (0 <= t)%Z.
Proof.
  intros H. apply pushed_bytes in H as (entry & script & nr & _ & _ & Hb & _).
  eexists _, _. split; [exact Hb|]. split; [apply round_scaled_nonneg | lia].
Qed.

Lemma sums_nonneg (l : list Item.t) :
  (forall i, In i l -> exists w t, item_bytes i w t /\ (0 <= w)%Z /\ (0 <= t)%Z) ->
  forall w0 t0, (0 <= w0)%Z -> (0 <= t0)%Z ->
  exists w t,
    fold_left num_add (List.map Item.wastedBytes l) (num_of_Z w0) = num_of_Z w
    /\ fold_left num_add (List.map Item.totalBytes l) (num_of_Z t0) = num_of_Z t
    /\ (w0 <= w)%Z /\ (t0 <= t)%Z.
Proof.
  induction l as [|i l IH]; intros Hl w0 t0 Hw0 Ht0; cbn [List.map fold_left].
  - exists w0, t0. repeat split; lia.
  - destruct (Hl i (or_introl eq_refl)) as (w & t & [Hw Ht] & Hwn & Htn).
    rewrite Hw, Ht, !num_add_int.
    destruct (IH (fun j Hj => Hl j (or_intror Hj)) (w0 + w)%Z (t0 + t)%Z)
      as (w' & t' & E1 & E2 & L1 & L2); [lia | lia |].
    exists w', t'. repeat split; try assumption; lia.
Qed.

Lemma contributions_In k i :
  In i (contributions k (pushed env)) -> exists k', In (k', i) (pushed env).
Proof.
  unfold contributions. intros Hi.
  apply in_map_iff in Hi as ([k' i'] & <- & Hi). apply filter_In in Hi as [Hi _].
  now exists k'.
Qed.

(** Property X8.  The [wastedBytes] and [totalBytes] of every reported item and
    of every reported group are whole, non-negative numbers: never a
    fraction, [NaN] or an infinity. *)
Theorem byte_figures_are_naturals :
  (forall item,
      In item (Product.items (audit_ env)) ->
      exists w t : N,
        Item.wastedBytes item = num_of_N w /\ Item.totalBytes item = num_of_N t)
  /\ (forall g,
         In g (Product.groups (audit_ env)) ->
         exists w t : N,
           Group.wastedBytes g = num_of_N w /\ Group.totalBytes g = num_of_N t).
Proof.
  split.
  - intros item Hin. rewrite audit_items in Hin.
    apply in_map_iff in Hin as ([k i] & <- & Hin). cbn [snd].
    apply pushed_nonneg in Hin as (w & t & [Hw Ht] & Hwn & Htn).
    exists (Z.to_N w), (Z.to_N t). unfold num_of_N. rewrite !Z2N.id by assumption. auto.
  - intros g Hg. apply final_groups_In in Hg as [k Hk].
    pose proof (final_group_spec env k) as Hspec. rewrite Hk in Hspec.
    destruct Hspec as (Hw & Ht & _ & _).
    destruct (sums_nonneg (contributions k (pushed env))) with (w0 := 0%Z) (t0 := 0%Z)
      as (w & t & Hw' & Ht' & Hwn & Htn); [|lia|lia|].
    + intros i Hi. apply contributions_In in Hi as [k' Hi]. eapply pushed_nonneg; eauto.
    + unfold num_sum in Hw, Ht. rewrite Hw' in Hw. rewrite Ht' in Ht.
      exists (Z.to_N w), (Z.to_N t). unfold num_of_N. rewrite !Z2N.id by assumption. auto.
Qed.

End ReportFacts.

Section CountFacts.
Context {NetworkRecord ScriptCoverage : Type}.
Variable env : Env NetworkRecord ScriptCoverage.

Lemma pushed_length : (length (pushed env) <= length (JsUsage env))%nat.
Proof.
  unfold pushed. induction (JsUsage env) as [|e l IH]; cbn [flat_map length]; [lia|].
  rewrite length_app. destruct (process_entry env e); cbn [length]; lia.
Qed.

Lemma first_seen_length_acc keys acc :
  (length
     (fold_left
        (fun acc k => if existsb (fun k' => same_key k' k) acc then acc else acc ++ [k])
        keys acc)
   <= length acc + length keys)%nat.
Proof.
  revert acc. induction keys as [|k keys IH]; intros acc; cbn [fold_left length]; [lia|].
  etransitivity; [apply IH|].
  destruct (existsb _ acc); [lia|]. rewrite length_app. cbn. lia.
Qed.

Lemma groups_length :
  length (Product.groups (audit_ env)) = length (first_seen (List.map fst (pushed env))).
Proof.
  unfold audit_, Map_values. cbn [Product.groups].
  rewrite length_map, <- (length_map fst), final_byEntity.
  now rewrite (fold_roll_up_keys (pushed env) []).
Qed.

(** Property X9.  There are at most as many groups as items and at most as many
    items as entries of [JsUsage], and there is no group exactly when
    there is no item. *)
Theorem report_sizes :
  (length (Product.groups (audit_ env)) <= length (Product.items (audit_ env)))%nat
  /\ (length (Product.items (audit_ env)) <= length (JsUsage env))%nat
  /\ (Product.items (audit_ env) = [] <-> Product.groups (audit_ env) = []).
Proof.
  assert (Hi : length (Product.items (audit_ env)) = length (pushed env))
    by (rewrite audit_items; apply length_map).
  assert (Hg : (length (Product.groups (audit_ env)) <= length (pushed env))%nat).
  { rewrite groups_length. unfold first_seen.
    etransitivity; [apply first_seen_length_acc|]. rewrite length_map. cbn. lia. }
  split; [lia|]. split; [rewrite Hi; apply pushed_length|]. split.
  - intros E. rewrite E in Hi. cbn in Hi.
    destruct (Product.groups (audit_ env)); [reflexivity | cbn in Hg; lia].
  - intros E. destruct (pushed env) as [|[k i] l] eqn:Ep.
    + destruct (Product.items (audit_ env)); [reflexivity | discriminate].
    + exfalso. pose proof (final_group_spec env k) as Hspec.
      destruct (Map_get (byEntity (final_state env)) k) as [g|] eqn:Eg.
      * apply Map_get_In in Eg. unfold audit_ in E. cbn [Product.groups] in E.
        rewrite E in Eg. destruct Eg.
      * rewrite Ep in Hspec. unfold contributions in Hspec.
        cbn [filter fst] in Hspec. rewrite same_key_refl in Hspec. discriminate.
Qed.

End CountFacts.

(* ===================================================================== *)
(** * Labels and conservation of bytes in the roll-up *)
(* ===================================================================== *)

Section RollUpFacts.

Lemma absorb_labelled k g item : labelled_by k g -> labelled_by k (absorb g item).
Proof. intros H. exact H. Qed.

Lemma new_group_labelled k : labelled_by k (new_group k).
Proof. repeat split. Qed.

(** One roll-up keeps the labels, and makes at most the key of its
    item into a new key. *)
Lemma roll_up_labelled m k item :
  (forall k' g, In (k', g) m -> labelled_by k' g) ->
  forall k' g, In (k', g) (roll_up m k item) ->
               labelled_by k' g /\ (k' = k \/ In k' (List.map fst m)).
Proof.
  rewrite roll_up_absorb.
  induction m as [|[k0 v0] m IH]; intros Hm k' g; cbn [Map_get Map_set].
  - intros [E|[]]. injection E as <- <-. split; [|now left].
    apply absorb_labelled, new_group_labelled.
  - destruct (same_key k0 k) eqn:Ek.
    + intros [E|Hin].
      * injection E as <- <-. split; [|right; now left].
        apply absorb_labelled, Hm. now left.
      * split; [apply Hm; now right|]. right. right.
        apply in_map_iff. now exists (k', g).
    + intros [E|Hin].
      * injection E as <- <-. split; [apply Hm; now left | right; now left].
      * destruct (IH (fun k1 g1 H1 => Hm k1 g1 (or_intror H1)) k' g Hin) as [Hl Hk].
        split; [assumption|]. destruct Hk as [->|Hk]; [now left | right; now right].
Qed.

Lemma fold_roll_up_labelled l m :
  (forall k' g, In (k', g) m -> labelled_by k' g) ->
  forall k' g,
    In (k', g) (fold_left (fun m p => roll_up m (fst p) (snd p)) l m) ->
    labelled_by k' g /\ (In k' (List.map fst l) \/ In k' (List.map fst m)).
Proof.
  revert m. induction l as [|p l IH]; intros m Hm k' g; cbn [fold_left List.map].
  - intros Hin. split; [now apply Hm|]. right. apply in_map_iff. now exists (k', g).
  - intros Hin.
    destruct (IH (roll_up m (fst p) (snd p))
                (fun k1 g1 H1 => proj1 (roll_up_labelled m (fst p) (snd p) Hm k1 g1 H1))
                k' g Hin) as [Hl Hk].
    split; [assumption|]. destruct Hk as [Hk|Hk]; [left; now right|].
    apply in_map_iff in Hk as ([k1 g1] & <- & H1). cbn [fst].
    destruct (roll_up_labelled m (fst p) (snd p) Hm k1 g1 H1) as [_ [->|Hk]];
      [left; now left | now right].
Qed.

End RollUpFacts.

Section LabelFacts.
Context {NetworkRecord ScriptCoverage : Type}.
Variable env : Env NetworkRecord ScriptCoverage.

(** Property X10.  Every reported group is stored under the classification [k] of
    a reported item; that item's [entity] is the name of [k], and the
    group's [url.text] and [entity] are that name (the empty string when
    unattributed) and its [url.url] is the homepage of [k], or ['#'] when
    there is none. *)
Theorem groups_labelled g :
  In g (Product.groups (audit_ env)) ->
  exists k item,
    In (k, g) (byEntity (final_state env))
    /\ In (k, item) (pushed env)
    /\ In item (Product.items (audit_ env))
    /\ Item.entity item = option_map Entity.name k
    /\ Group.text g = entity_label k
    /\ Group.entity g = entity_label k
    /\ Group.href g = entity_link k.
Proof.
  intros Hg. unfold audit_ in Hg. cbn [Product.groups] in Hg.
  apply Map_values_In in Hg as [k Hk]. pose proof Hk as Hk'.
  rewrite final_byEntity in Hk.
  apply fold_roll_up_labelled in Hk as [(Ht & He & Hh) Hin]; [|intros ? ? []].
  destruct Hin as [Hin|[]].
  apply in_map_iff in Hin as ([k1 item] & E & Hin). cbn [fst] in E. subst k1.
  exists k, item. repeat split; try assumption.
  - rewrite audit_items. apply in_map_iff. now exists (k, item).
  - apply pushed_In in Hin as (entry & _ & Hp).
    assert (Ho : outcome_item (process_entry env entry) = Some item) by now rewrite Hp.
    apply candidate_fields in Ho as (script & nr & _ & _ & Hent & _ & _ & Hout).
    rewrite Hp in Hout. destruct (num_le _ _); [discriminate|].
    injection Hout as ->. exact Hent.
Qed.

End LabelFacts.

Section ConservationFacts.

Lemma num_to_Z_int (z : Z) : num_to_Z (num_of_Z z) = z.
Proof. apply Qfloor_Z. Qed.

(** A sum of whole numbers is the whole number of the sum. *)
Lemma fold_num_add_ints (l : list number) (a : Z) :
  (forall x, In x l -> exists z, x = num_of_Z z) ->
  fold_left num_add l (num_of_Z a)
  = num_of_Z (fold_left Z.add (List.map num_to_Z l) a).
Proof.
  revert a. induction l as [|x l IH]; intros a Hl; cbn [fold_left List.map]; [reflexivity|].
  destruct (Hl x (or_introl eq_refl)) as [z ->].
  rewrite num_add_int, num_to_Z_int. apply IH. intros y Hy. apply Hl. now right.
Qed.

Lemma fold_Z_add_shift (l : list Z) (a b : Z) :
  fold_left Z.add l (a + b)%Z = (fold_left Z.add l a + b)%Z.
Proof.
  revert a. induction l as [|x l IH]; intros a; cbn [fold_left]; [reflexivity|].
  replace (a + b + x)%Z with (a + x + b)%Z by lia. apply IH.
Qed.

Lemma held_cons k g m :
  held ((k, g) :: m)
  = (fst (held m) + num_to_Z (Group.wastedBytes g),
     snd (held m) + num_to_Z (Group.totalBytes g))%Z.
Proof.
  unfold held. cbn [List.map fold_left snd fst].
  now rewrite <- !fold_Z_add_shift.
Qed.

(** One roll-up adds the bytes of its item to the bytes held. *)
Lemma roll_up_held m k item w t :
  (forall k' g, In (k', g) m -> exists w' t', group_bytes g w' t') ->
  item_bytes item w t ->
  held (roll_up m k item) = (fst (held m) + w, snd (held m) + t)%Z
  /\ forall k' g, In (k', g) (roll_up m k item) -> exists w' t', group_bytes g w' t'.
Proof.
  rewrite roll_up_absorb. intros Hm Hi.
  induction m as [|[k0 v0] m IH]; cbn [Map_get Map_set].
  - pose proof (absorb_bytes _ _ _ _ _ _ (new_group_bytes k) Hi) as [Hw Ht]. split.
    + rewrite held_cons. cbn [held List.map fold_left fst snd].
      rewrite Hw, Ht, !num_to_Z_int. reflexivity.
    + intros k' g [E|[]]. injection E as <- <-. eexists _, _. split; eassumption.
  - destruct (Hm k0 v0 (or_introl eq_refl)) as (w0 & t0 & Hv0).
    destruct (same_key k0 k) eqn:Ek.
    + pose proof (absorb_bytes _ _ _ _ _ _ Hv0 Hi) as [Hw Ht]. split.
      * rewrite !held_cons. cbn [fst snd]. destruct Hv0 as [Hw0 Ht0].
        rewrite Hw, Ht, Hw0, Ht0, !num_to_Z_int. f_equal; lia.
      * intros k' g [E|Hin].
        -- injection E as <- <-. eexists _, _. split; eassumption.
        -- apply (Hm k' g). now right.
    + destruct (IH (fun k1 g1 H1 => Hm k1 g1 (or_intror H1))) as [IHh IHb]. split.
      * rewrite !held_cons, IHh. cbn [fst snd]. f_equal; lia.
      * intros k' g [E|Hin].
        -- injection E as <- <-. eauto.
        -- apply (IHb k' g Hin).
Qed.

Lemma fold_roll_up_held l m :
  (forall k' g, In (k', g) m -> exists w' t', group_bytes g w' t') ->
  (forall p, In p l -> exists w t, item_bytes (snd p) w t) ->
  held (fold_left (fun m p => roll_up m (fst p) (snd p)) l m)
  = (fold_left Z.add (List.map (fun p => num_to_Z (Item.wastedBytes (snd p))) l)
       (fst (held m)),
     fold_left Z.add (List.map (fun p => num_to_Z (Item.totalBytes (snd p))) l)
       (snd (held m)))
  /\ forall k' g,
      In (k', g) (fold_left (fun m p => roll_up m (fst p) (snd p)) l m) ->
      exists w' t', group_bytes g w' t'.
Proof.
  revert m. induction l as [|p l IH]; intros m Hm Hl; cbn [fold_left List.map].
  - split; [now destruct (held m) | exact Hm].
  - destruct (Hl p (or_introl eq_refl)) as (w & t & Hp).
    destruct (roll_up_held m (fst p) (snd p) w t Hm Hp) as [Hh Hb].
    destruct (IH _ Hb (fun q Hq => Hl q (or_intror Hq))) as [IHh IHb].
    split; [|exact IHb]. rewrite IHh, Hh. cbn [fst snd].
    destruct Hp as [Hw Ht]. now rewrite Hw, Ht, !num_to_Z_int.
Qed.

End ConservationFacts.

Section Conservation.
Context {NetworkRecord ScriptCoverage : Type}.
Variable env : Env NetworkRecord ScriptCoverage.

(** Property X11.  The wasted bytes of all groups add up to the wasted bytes of
    all items, and so do the total bytes: the roll-up neither loses nor
    counts twice. *)
Theorem groups_conserve_bytes :
  num_sum (List.map Group.wastedBytes (Product.groups (audit_ env)))
  = num_sum (List.map Item.wastedBytes (Product.items (audit_ env)))
  /\ num_sum (List.map Group.totalBytes (Product.groups (audit_ env)))
     = num_sum (List.map Item.totalBytes (Product.items (audit_ env))).
Proof.
  destruct (fold_roll_up_held (pushed env) []) as [Hh Hb];
    [intros ? ? [] | apply pushed_item_bytes |].
  rewrite <- final_byEntity in Hh, Hb.
  unfold held in Hh. cbn [List.map fold_left fst snd] in Hh.
  injection Hh as Hw Ht.
  rewrite audit_items. unfold audit_, Map_values, num_sum. cbn [Product.groups].
  rewrite !map_map.
  split.
  - rewrite !fold_num_add_ints.
    + rewrite !map_map. f_equal. exact Hw.
    + intros x Hx. apply in_map_iff in Hx as (p & <- & Hp).
      destruct (pushed_item_bytes env p Hp) as (w & t & [E _]). eauto.
    + intros x Hx. apply in_map_iff in Hx as ([k g] & <- & Hg).
      destruct (Hb k g Hg) as (w & t & [E _]). eauto.
  - rewrite !fold_num_add_ints.
    + rewrite !map_map. f_equal. exact Ht.
    + intros x Hx. apply in_map_iff in Hx as (p & <- & Hp).
      destruct (pushed_item_bytes env p Hp) as (w & t & [_ E]). eauto.
    + intros x Hx. apply in_map_iff in Hx as ([k g] & <- & Hg).
      destruct (Hb k g Hg) as (w & t & [_ E]). eauto.
Qed.

End Conservation.

Section OrderOfNumbers.

Lemma num_le_trans (a b c : number) :
  num_le a b = true -> num_le b c = true -> num_le a c = true.
Proof.
  destruct a as [x| | |], b as [y| | |], c as [z| | |]; cbn [num_le];
    try discriminate; try reflexivity.
  rewrite !Qle_bool_iff. apply Qle_trans.
Qed.

(** Being above a threshold passes on to larger figures. *)
Lemma above_upward (thr : number) (w w' : Z) :
  num_le (num_of_Z w) thr = false -> (w <= w')%Z ->
  num_le (num_of_Z w') thr = false.
Proof.
  intros Hw Hle. destruct (num_le (num_of_Z w') thr) eqn:E; [|reflexivity].
  rewrite <- Hw. symmetry. apply num_le_trans with (b := num_of_Z w'); [|assumption].
  rewrite num_le_int. now apply Z.leb_le.
Qed.

Lemma above_nonneg_positive (thr : number) (w : Z) :
  num_le (num_of_Z 0) thr = true -> num_le (num_of_Z w) thr = false -> (0 < w)%Z.
Proof.
  intros H0 Hw. destruct (Z.lt_ge_cases 0 w) as [|Hle]; [assumption|].
  rewrite (num_le_trans (num_of_Z w) (num_of_Z 0) thr) in Hw; [discriminate| |assumption].
  rewrite num_le_int. now apply Z.leb_le.
Qed.

Lemma round_scaled_zero (T n : N) : T <> 0%N -> round_scaled 0 T n = 0%Z.
Proof.
  intros HT. unfold round_scaled. cbn [Z.of_N]. rewrite Z.mul_0_r, Z.mul_0_l, Z.add_0_l.
  apply Z.div_small. lia.
Qed.

(** The percentage of positive whole figures is a positive rational. *)
Lemma percent_finite (w t : Z) :
  (0 < w)%Z -> (0 < t)%Z ->
  exists q, num_mul (num_div (num_of_Z w) (num_of_Z t)) (num_of_Z 100) = Num q /\ 0 < q.
Proof.
  intros Hw Ht. unfold num_div, num_of_Z. rewrite Qsign_inject_Z.
  assert (Hwq : 0 < inject_Z w) by (rewrite <- (Zlt_Qlt 0); lia).
  assert (Htq : 0 < inject_Z t) by (rewrite <- (Zlt_Qlt 0); lia).
  destruct (Z.compare_spec t 0); try lia.
  cbn [num_mul]. eexists. split; [reflexivity|].
  rewrite !Qred_correct. change (inject_Z 100) with 100.
  apply Qmult_lt_0_compat; [|reflexivity].
  apply Qlt_shift_div_l; [assumption|]. now rewrite Qmult_0_l.
Qed.

(** A sum of non-negative figures is at least each of them. *)
Lemma sum_ge_member (l : list Item.t) i wi ti :
  (forall j, In j l -> exists w t, item_bytes j w t /\ (0 <= w)%Z /\ (0 <= t)%Z) ->
  In i l -> item_bytes i wi ti ->
  forall w0 t0, (0 <= w0)%Z -> (0 <= t0)%Z ->
  exists w t,
    fold_left num_add (List.map Item.wastedBytes l) (num_of_Z w0) = num_of_Z w
    /\ fold_left num_add (List.map Item.totalBytes l) (num_of_Z t0) = num_of_Z t
    /\ (wi <= w)%Z /\ (ti <= t)%Z.
Proof.
  intros Hl Hin [Hwi Hti].
  induction l as [|j l IH]; [destruct Hin|]. intros w0 t0 Hw0 Ht0.
  cbn [List.map fold_left].
  destruct (Hl j (or_introl eq_refl)) as (w & t & [Hw Ht] & Hwn & Htn).
  rewrite Hw, Ht, !num_add_int.
  destruct Hin as [->|Hin].
  - rewrite Hwi in Hw. rewrite Hti in Ht. apply num_of_Z_inj in Hw, Ht. subst w t.
    destruct (sums_nonneg l (fun x Hx => Hl x (or_intror Hx)) (w0 + wi)%Z (t0 + ti)%Z)
      as (w' & t' & E1 & E2 & L1 & L2); [lia | lia |].
    exists w', t'. repeat split; try assumption; lia.
  - apply (IH (fun x Hx => Hl x (or_intror Hx)) Hin); lia.
Qed.

End OrderOfNumbers.

Section NonNegativeThreshold.
Context {NetworkRecord ScriptCoverage : Type}.
Variable env : Env NetworkRecord ScriptCoverage.

Lemma pushed_above k item :
  In (k, item) (pushed env) ->
  exists entry script networkRecord,
    In entry (JsUsage env)
    /\ scaling_reached env entry script networkRecord
    /\ let s := summary_for env entry in
       let transfer := estimateTransferSize env networkRecord (Summary.totalBytes s) in
       item_bytes item
         (round_scaled transfer (Summary.totalBytes s) (Summary.wastedBytes s))
         (Z.of_N transfer)
       /\ num_le (Item.wastedBytes item) (unusedThreshold env) = false.
Proof.
  intros H. apply pushed_In in H as (entry & Hin & Hp).
  assert (Ho : outcome_item (process_entry env entry) = Some item) by now rewrite Hp.
  apply candidate_fields in Ho as (script & nr & Hr & _ & _ & Ht & Hw & Hout).
  exists entry, script, nr. split; [assumption|]. split; [assumption|].
  cbv zeta. split; [split; assumption|].
  rewrite Hp in Hout. destruct (num_le _ _); [discriminate | reflexivity].
Qed.

Lemma pushed_positive k item :
  num_le (num_of_Z 0) (unusedThreshold env) = true ->
  In (k, item) (pushed env) ->
  exists w t, item_bytes item w t /\ (0 < w)%Z /\ (0 < t)%Z
              /\ num_le (num_of_Z w) (unusedThreshold env) = false.
Proof.
  intros H0 Hin.
  apply pushed_above in Hin as (entry & script & nr & _ & Hr & Hb & Habove).
  cbv zeta in *. destruct Hb as [Hw Ht]. rewrite Hw in Habove.
  pose proof (above_nonneg_positive _ _ H0 Habove) as Hpos.
  eexists _, _. split; [split; eassumption|]. split; [assumption|]. split; [|assumption].
  destruct (estimateTransferSize env nr (Summary.totalBytes (summary_for env entry)))
    as [|p] eqn:E; [|lia].
  rewrite round_scaled_zero in Hpos by apply Hr. lia.
Qed.

(** Property X12.  When [unusedThreshold] is not negative, every reported item has
    positive [wastedBytes] and [totalBytes], and every reported group has
    positive totals, has [wastedBytes] above the threshold, and has a
    finite, positive [wastedPercent] (the division by [totalBytes] never
    yields [NaN]). *)
Theorem nonnegative_threshold_report :
  num_le (num_of_Z 0) (unusedThreshold env) = true ->
  (forall item,
      In item (Product.items (audit_ env)) ->
      exists w t, item_bytes item w t /\ (0 < w)%Z /\ (0 < t)%Z)
  /\ (forall g,
         In g (Product.groups (audit_ env)) ->
         exists w t q,
           group_bytes g w t /\ (0 < w)%Z /\ (0 < t)%Z
           /\ num_le (Group.wastedBytes g) (unusedThreshold env) = false
           /\ Group.wastedPercent g = Some (Num q) /\ 0 < q).
Proof.
  intros H0. split.
  - intros item Hin. rewrite audit_items in Hin.
    apply in_map_iff in Hin as ([k i] & <- & Hin). cbn [snd].
    destruct (pushed_positive k i H0 Hin) as (w & t & Hb & Hw & Ht & _). eauto.
  - intros g Hg. apply final_groups_In in Hg as [k Hk].
    pose proof (final_group_spec env k) as Hspec. rewrite Hk in Hspec.
    destruct Hspec as (Hw & Ht & Hp & Hne).
    destruct (contributions k (pushed env)) as [|i l] eqn:Ec; [congruence|].
    assert (Hi : In i (contributions k (pushed env))) by (rewrite Ec; now left).
    apply contributions_In in Hi as [k' Hi].
    destruct (pushed_positive k' i H0 Hi) as (wi & ti & Hbi & Hwi & Hti & Habove).
    destruct (sum_ge_member (i :: l) i wi ti) with (w0 := 0%Z) (t0 := 0%Z)
      as (w & t & Ew & Et & Lw & Lt); [| now left | assumption | lia | lia |].
    + intros j Hj. rewrite <- Ec in Hj. apply contributions_In in Hj as [kj Hj].
      eapply pushed_nonneg; eauto.
    + unfold num_sum in Hw, Ht. rewrite Ew in Hw. rewrite Et in Ht.
      destruct (percent_finite w t) as (q & Eq & Hq); [lia | lia |].
      exists w, t, q. split; [split; assumption|].
      split; [lia|]. split; [lia|]. split.
      * rewrite Hw. eapply above_upward; eassumption.
      * unfold percent_ok in Hp. rewrite Hp, Hw, Ht, Eq. auto.
Qed.

End NonNegativeThreshold.

Section Variations.
Context {NetworkRecord ScriptCoverage : Type}.
Variable env : Env NetworkRecord ScriptCoverage.

(** The items of a run, entry by entry. *)
Lemma items_by_entry (e : Env NetworkRecord ScriptCoverage) :
  Product.items (audit_ e)
  = flat_map
      (fun entry =>
         match process_entry e entry with
         | Pushed item _ => [item]
         | _ => []
         end)
      (JsUsage e).
Proof.
  rewrite audit_items. unfold pushed.
  induction (JsUsage e) as [|x l IH]; cbn [flat_map List.map]; [reflexivity|].
  rewrite map_app, IH. now destruct (process_entry e x).
Qed.

(** An iteration does not look at the coverage set as a whole. *)
Lemma process_entry_with_JsUsage usage entry :
  process_entry (with_JsUsage env usage) entry = process_entry env entry.
Proof. reflexivity. Qed.

Lemma pushed_with_JsUsage usage :
  pushed (with_JsUsage env usage)
  = flat_map
      (fun entry =>
         match process_entry env entry with
         | Pushed item ce => [(ce, item)]
         | _ => []
         end)
      usage.
Proof. reflexivity. Qed.

Lemma audit_of_pushed (e e' : Env NetworkRecord ScriptCoverage) :
  pushed e = pushed e' -> audit_ e = audit_ e'.
Proof.
  intros E. unfold audit_. now rewrite !final_state_pushed, E.
Qed.

(** Property X13.  The items of a coverage set made of two parts are the items of
    the first part followed by the items of the second: what an entry
    contributes does not depend on the other entries. *)
Theorem items_of_concatenation (usage1 usage2 : list (jsstring * ScriptCoverage)) :
  Product.items (audit_ (with_JsUsage env (usage1 ++ usage2)))
  = Product.items (audit_ (with_JsUsage env usage1))
    ++ Product.items (audit_ (with_JsUsage env usage2)).
Proof.
  rewrite !items_by_entry. cbn [JsUsage with_JsUsage].
  rewrite flat_map_app. reflexivity.
Qed.

(** Property X14.  An entry of [JsUsage] for which no script is found, or whose
    script has no network record, leaves no trace: items and groups are
    those of the coverage set without that entry. *)
Theorem unresolved_entry_ignored (usage1 usage2 : list (jsstring * ScriptCoverage)) entry :
  (find (fun s => str_eqb (Script.scriptId s) (fst entry)) (Scripts env) = None
   \/ exists script,
       find (fun s => str_eqb (Script.scriptId s) (fst entry)) (Scripts env) = Some script
       /\ getRequestForScript env script = None) ->
  audit_ (with_JsUsage env (usage1 ++ entry :: usage2))
  = audit_ (with_JsUsage env (usage1 ++ usage2)).
Proof.
  intros H. apply audit_of_pushed. rewrite !pushed_with_JsUsage, !flat_map_app.
  f_equal. cbn [flat_map].
  assert (E : process_entry env entry = Continue_no_script
              \/ process_entry env entry = Continue_no_networkRecord).
  { unfold process_entry. destruct H as [-> | (script & -> & ->)]; auto. }
  destruct E as [-> | ->]; reflexivity.
Qed.

Lemma filter_flat_map {A B : Type} (p : B -> bool) (f : A -> list B) (l : list A) :
  filter p (flat_map f l) = flat_map (fun a => filter p (f a)) l.
Proof.
  induction l as [|a l IH]; cbn [flat_map filter]; [reflexivity|].
  now rewrite filter_app, IH.
Qed.

(** Property X15.  Under other options with the same per-source threshold and an
    [unusedThreshold] that is not lower, the reported items are those of
    the original run that are above the new threshold, in the same order
    and otherwise unchanged. *)
Theorem raising_threshold_filters (o : option Options.t) :
  bundleSourceUnusedThreshold (with_options env o) = bundleSourceUnusedThreshold env ->
  num_le (unusedThreshold env) (unusedThreshold (with_options env o)) = true ->
  Product.items (audit_ (with_options env o))
  = filter (above (unusedThreshold (with_options env o))) (Product.items (audit_ env)).
Proof.
  intros Hsrc Hthr. rewrite !items_by_entry, filter_flat_map.
  cbn [JsUsage with_options]. apply flat_map_ext. intros entry.
  unfold process_entry.
  change (Scripts (with_options env o)) with (Scripts env).
  change (getRequestForScript (with_options env o)) with (getRequestForScript env).
  change (summary_for (with_options env o) entry) with (summary_for env entry).
  change (estimateTransferSize (with_options env o)) with (estimateTransferSize env).
  change (classifiedEntities_byURL (with_options env o))
    with (classifiedEntities_byURL env).
  change (bundle_for (with_options env o) (fst entry)) with (bundle_for env (fst entry)).
  destruct (find _ (Scripts env)) as [script|]; [|reflexivity].
  destruct (getRequestForScript env script) as [nr|]; [|reflexivity].
  cbv zeta.
  destruct (_ || _)%bool; [reflexivity|].
  set (s := summary_for env entry).
  set (ratio := transferRatio_of _ s).
  set (candidate := scaled_item script s ratio _).
  assert (Hsub : subItems_of (with_options env o) (bundle_for env (fst entry)) s ratio
                 = subItems_of env (bundle_for env (fst entry)) s ratio).
  { unfold subItems_of, subItems_items, topUnusedSourceSizes. now rewrite Hsrc. }
  rewrite Hsub.
  destruct (num_le (Item.wastedBytes candidate) (unusedThreshold env)) eqn:E1;
    destruct (num_le (Item.wastedBytes candidate) (unusedThreshold (with_options env o)))
      eqn:E2; cbn [filter]; try reflexivity.
  - rewrite (num_le_trans _ _ _ E1 Hthr) in E2. discriminate.
  - unfold above. cbn [set_subItems Item.wastedBytes]. now rewrite E2.
  - unfold above. cbn [set_subItems Item.wastedBytes]. now rewrite E2.
Qed.

End Variations.

Section RankingFacts.

Lemma StronglySorted_app_inv {A : Type} (R : A -> A -> Prop) (l1 l2 : list A) :
  StronglySorted R (l1 ++ l2) ->
  forall a b, In a l1 -> In b l2 -> R a b.
Proof.
  induction l1 as [|x l1 IH]; cbn [app]; intros H a b Ha Hb; [destruct Ha|].
  apply StronglySorted_inv in H as [Hs Hx].
  destruct Ha as [->|Ha]; [|now apply IH].
  rewrite Forall_forall in Hx. apply Hx. apply in_or_app. now right.
Qed.

(** Property X16.  [sort] followed by [slice(0, 5)] splits the entries of
    [sourcesWastedBytes] into those kept and those dropped: five are kept,
    or all when there are fewer, no dropped entry wastes more than a kept
    one, and the ranked sources are the kept entries in order. *)
Theorem top_five_kept (sourcesWastedBytes : list (jsstring * N)) :
  Permutation sourcesWastedBytes
    (kept_sources sourcesWastedBytes ++ dropped_sources sourcesWastedBytes)
  /\ length (kept_sources sourcesWastedBytes) = Nat.min 5 (length sourcesWastedBytes)
  /\ (forall kept dropped,
         In kept (kept_sources sourcesWastedBytes) ->
         In dropped (dropped_sources sourcesWastedBytes) ->
         (snd dropped <= snd kept)%N)
  /\ forall files unmappedBytes transferRatio,
      List.map SourceSize.source
        (rankedSourceSizes files unmappedBytes sourcesWastedBytes transferRatio)
      = List.map fst (kept_sources sourcesWastedBytes).
Proof.
  unfold kept_sources, dropped_sources.
  set (compareFn := fun a b : jsstring * N => (Z.of_N (snd b) - Z.of_N (snd a))%Z).
  pose proof (Array_sort_perm _ compareFn sourcesWastedBytes) as HP.
  split; [now rewrite firstn_skipn|]. split.
  - rewrite length_firstn. f_equal. symmetry. now apply Permutation_length.
  - split.
    + intros kept dropped Hk Hd.
      assert (Hs : StronglySorted (fun a b => (compareFn a b <= 0)%Z)
                     (Array_sort compareFn sourcesWastedBytes)).
      { apply Array_sort_sorted; unfold compareFn; intros; lia. }
      rewrite <- (firstn_skipn 5) in Hs.
      pose proof (StronglySorted_app_inv _ _ _ Hs kept dropped Hk Hd) as H.
      unfold compareFn in H. cbv beta in H. lia.
    + intros files unmappedBytes transferRatio. unfold rankedSourceSizes.
      rewrite map_map. reflexivity.
Qed.

End RankingFacts.

Section SubItemProvenance.
Context {NetworkRecord ScriptCoverage : Type}.
Variable env : Env NetworkRecord ScriptCoverage.



(** Property X18.  A pushed item is left without [subItems] exactly when there is
    no bundle for the script, or the bundle's sizes carry the error marker,
    or the summary has no [sourcesWastedBytes]. *)
Theorem subItems_present_iff entry item ce :
  process_entry env entry = Pushed item ce ->
  (Item.subItems item = None <->
   bundle_for env (fst entry) = None
   \/ (exists b errorMessage,
          bundle_for env (fst entry) = Some b
          /\ Bundle.sizes b = SizesError errorMessage)
   \/ Summary.sourcesWastedBytes (summary_for env entry) = None).
Proof.
  intros Hp. apply pushed_subItems in Hp as (script & nr & _ & ->).
  unfold subItems_of.
  destruct (bundle_for env (fst entry)) as [b|]; [|split; auto].
  destruct (Bundle.sizes b) as [msg|files unmapped] eqn:Es.
  - split; [|reflexivity]. intros _. right. left. eauto.
  - destruct (Summary.sourcesWastedBytes (summary_for env entry)) as [swb|].
    + split; [discriminate|].
      intros [H | [(b' & msg & Hb & Hs) | H]]; try discriminate.
      injection Hb as <-. congruence.
    + split; auto.
Qed.

End SubItemProvenance.

Section ScalingBounds.

Lemma round_scaled_shrinks (t T n : N) :
  T <> 0%N -> (t <= T)%N -> (round_scaled t T n <= Z.of_N n)%Z.
Proof.
  intros HT Hle. unfold round_scaled.
  apply Z.lt_succ_r. apply Z.div_lt_upper_bound; [lia | nia].
Qed.

Lemma round_scaled_grows (t T n : N) :
  T <> 0%N -> (T <= t)%N -> (Z.of_N n <= round_scaled t T n)%Z.
Proof.
  intros HT Hle. unfold round_scaled.
  apply Z.div_le_lower_bound; [lia | nia].
Qed.

End ScalingBounds.

Section MoreReportFacts.
Context {NetworkRecord ScriptCoverage : Type}.
Variable env : Env NetworkRecord ScriptCoverage.

(** Property X19.  When the estimated transfer size does not exceed the summary's
    [totalBytes], neither scaled figure of the item exceeds the figure of
    the summary it comes from; when it is not smaller, neither scaled
    figure is smaller. *)
Theorem scaled_waste_bounds entry item :
  outcome_item (process_entry env entry) = Some item ->
  exists script networkRecord,
    find (fun s => str_eqb (Script.scriptId s) (fst entry)) (Scripts env) = Some script
    /\ getRequestForScript env script = Some networkRecord
    /\ let s := summary_for env entry in
       let transfer := estimateTransferSize env networkRecord (Summary.totalBytes s) in
       ((transfer <= Summary.totalBytes s)%N ->
        num_le (Item.wastedBytes item) (num_of_N (Summary.wastedBytes s)) = true
        /\ num_le (Item.totalBytes item) (num_of_N (Summary.totalBytes s)) = true)
       /\ ((Summary.totalBytes s <= transfer)%N ->
           num_le (num_of_N (Summary.wastedBytes s)) (Item.wastedBytes item) = true
           /\ num_le (num_of_N (Summary.totalBytes s)) (Item.totalBytes item) = true).
Proof.
  intros H. apply candidate_fields in H as (script & nr & Hr & _ & _ & Ht & Hw & _).
  exists script, nr. destruct Hr as (Hs & Hn & _ & HT).
  split; [assumption|]. split; [assumption|]. cbv zeta in *.
  rewrite Ht, Hw. unfold num_of_N. rewrite !num_le_int. split; intros Hle.
  - split; apply Z.leb_le; [now apply round_scaled_shrinks | lia].
  - split; apply Z.leb_le; [now apply round_scaled_grows | lia].
Qed.

(** Property X20.  No two groups of the entity map are stored under the same
    entity, and every stored group is the one found under its key. *)
Theorem one_group_per_entity :
  keys_distinct (byEntity (final_state env))
  /\ forall k g,
      In (k, g) (byEntity (final_state env)) ->
      Map_get (byEntity (final_state env)) k = Some g.
Proof.
  assert (H : keys_distinct (byEntity (final_state env))).
  { rewrite final_byEntity. apply fold_roll_up_distinct. exact I. }
  split; [exact H|]. intros k g Hin. now apply Map_get_of_In.
Qed.

End MoreReportFacts.

(* ===================================================================== *)
(** * The further properties on the sample runs *)
(* ===================================================================== *)

(** X2 on a sample run. *)
Lemma trimCommonPrefix_injective_witness :
  startsWith (js "src/a.js") (js "src/") = true
  /\ startsWith (js "src/b.js") (js "src/") = true
  /\ (trimCommonPrefix (js "src/a.js") (js "src/")
      = trimCommonPrefix (js "src/b.js") (js "src/") ->
      js "src/a.js" = js "src/b.js").
Proof.
  split; [reflexivity|]. split; [reflexivity|].
  exact (trimCommonPrefix_injective (js "src/a.js") (js "src/b.js") (js "src/")
           eq_refl eq_refl).
Defined.

(** X3 on a sample run. *)
Lemma trim_by_commonPrefix_witness :
  In (js "src/lib/c.js") [js "src/app/a.js"; js "src/app/b.js"; js "src/lib/c.js"]
  /\ trimCommonPrefix (js "src/lib/c.js")
       (commonPrefix [js "src/app/a.js"; js "src/app/b.js"; js "src/lib/c.js"])
     = ellipsis ++ js "lib/c.js".
Proof.
  assert (Hin : In (js "src/lib/c.js")
                  [js "src/app/a.js"; js "src/app/b.js"; js "src/lib/c.js"])
    by (right; right; left; reflexivity).
  split; [exact Hin|].
  destruct (trim_by_commonPrefix _ _ Hin) as [_ E]. rewrite E. reflexivity.
Defined.

(** X4 on a sample run. *)
Lemma commonPrefix_permutation_witness :
  Permutation [js "src/app/a.js"; js "src/lib/c.js"] [js "src/lib/c.js"; js "src/app/a.js"]
  /\ commonPrefix [js "src/app/a.js"; js "src/lib/c.js"]
     = commonPrefix [js "src/lib/c.js"; js "src/app/a.js"].
Proof.
  assert (HP : Permutation [js "src/app/a.js"; js "src/lib/c.js"]
                 [js "src/lib/c.js"; js "src/app/a.js"]) by apply perm_swap.
  split; [exact HP|]. exact (commonPrefix_permutation _ _ HP).
Defined.

(** X5 on a sample run. *)
Lemma commonPrefix_of_shared_element_witness :
  In (js "src/") [js "src/a.js"; js "src/"; js "src/b.js"]
  /\ commonPrefix [js "src/a.js"; js "src/"; js "src/b.js"] = js "src/"
  /\ commonPrefix [js "only.js"] = js "only.js".
Proof.
  assert (Hin : In (js "src/") [js "src/a.js"; js "src/"; js "src/b.js"])
    by (right; left; reflexivity).
  split; [exact Hin|]. split.
  - apply (commonPrefix_of_shared_element _ _ Hin).
    intros x [<-|[<-|[<-|[]]]]; reflexivity.
  - apply (commonPrefix_of_shared_element [js "only.js"] (js "only.js"));
      [left; reflexivity|]. intros x [<-|[]]. reflexivity.
Defined.



(** X8 on a sample run. *)
Lemma byte_figures_are_naturals_witness :
  In group_acme (Product.groups (audit_ run_entities))
  /\ exists w t : N,
      Group.wastedBytes group_acme = num_of_N w /\ Group.totalBytes group_acme = num_of_N t.
Proof.
  assert (H : In group_acme (Product.groups (audit_ run_entities)))
    by (left; vm_compute; reflexivity).
  split; [exact H|]. exact (proj2 (byte_figures_are_naturals run_entities) _ H).
Defined.

(** X10 on a sample run. *)
Lemma groups_labelled_witness :
  In group_acme (Product.groups (audit_ run_entities))
  /\ exists k item,
      In (k, group_acme) (byEntity (final_state run_entities))
      /\ In (k, item) (pushed run_entities)
      /\ In item (Product.items (audit_ run_entities))
      /\ Item.entity item = option_map Entity.name k
      /\ Group.text group_acme = entity_label k
      /\ Group.entity group_acme = entity_label k
      /\ Group.href group_acme = entity_link k.
Proof.
  assert (H : In group_acme (Product.groups (audit_ run_entities)))
    by (left; vm_compute; reflexivity).
  split; [exact H|]. exact (groups_labelled run_entities _ H).
Defined.

(** X12 on a sample run. *)
Lemma nonnegative_threshold_report_witness :
  num_le (num_of_Z 0) (unusedThreshold run_entities) = true
  /\ exists w t q,
      group_bytes group_acme w t /\ (0 < w)%Z /\ (0 < t)%Z
      /\ num_le (Group.wastedBytes group_acme) (unusedThreshold run_entities) = false
      /\ Group.wastedPercent group_acme = Some (Num q) /\ 0 < q.
Proof.
  assert (H0 : num_le (num_of_Z 0) (unusedThreshold run_entities) = true) by reflexivity.
  assert (H : In group_acme (Product.groups (audit_ run_entities)))
    by (left; vm_compute; reflexivity).
  split; [exact H0|].
  exact (proj2 (nonnegative_threshold_report run_entities H0) _ H).
Defined.

(** X14 on a sample run. *)
Lemma unresolved_entry_ignored_witness :
  find (fun s => str_eqb (Script.scriptId s) (fst entry_9)) (Scripts run_plain) = None
  /\ audit_ (with_JsUsage run_plain ([] ++ entry_9 :: [entry_1]))
     = audit_ (with_JsUsage run_plain ([] ++ [entry_1])).
Proof.
  assert (H : find (fun s => str_eqb (Script.scriptId s) (fst entry_9)) (Scripts run_plain)
              = None) by reflexivity.
  split; [exact H|].
  exact (unresolved_entry_ignored run_plain [] [entry_1] entry_9 (or_introl H)).
Defined.

(** X15 on a sample run. *)
Lemma raising_threshold_filters_witness :
  bundleSourceUnusedThreshold (with_options run_plain raised_options)
  = bundleSourceUnusedThreshold run_plain
  /\ num_le (unusedThreshold run_plain)
            (unusedThreshold (with_options run_plain raised_options)) = true
  /\ Product.items (audit_ run_plain) = [item_half_used]
  /\ Product.items (audit_ (with_options run_plain raised_options))
     = filter (above (unusedThreshold (with_options run_plain raised_options)))
         (Product.items (audit_ run_plain)).
Proof.
  split; [reflexivity|]. split; [reflexivity|]. split; [vm_compute; reflexivity|].
  exact (raising_threshold_filters run_plain raised_options eq_refl eq_refl).
Defined.

(** X16 on a sample run. *)
Lemma top_five_kept_witness :
  In (js "src/a.js", 512%N) (kept_sources seven_sources)
  /\ In (js "src/g.js", 300%N) (dropped_sources seven_sources)
  /\ (300 <= 512)%N.
Proof.
  assert (Hk : In (js "src/a.js", 512%N) (kept_sources seven_sources))
    by (do 4 right; left; reflexivity).
  assert (Hd : In (js "src/g.js", 300%N) (dropped_sources seven_sources))
    by (left; reflexivity).
  split; [exact Hk|]. split; [exact Hd|].
  destruct (top_five_kept seven_sources) as (_ & _ & H & _).
  exact (H _ _ Hk Hd).
Defined.


(** X18 on a sample run. *)
Lemma subItems_present_iff_witness :
  process_entry run_broken_bundle entry_1 = Pushed item_half_used None
  /\ Item.subItems item_half_used = None
  /\ (bundle_for run_broken_bundle (fst entry_1) = None
      \/ (exists b errorMessage,
             bundle_for run_broken_bundle (fst entry_1) = Some b
             /\ Bundle.sizes b = SizesError errorMessage)
      \/ Summary.sourcesWastedBytes (summary_for run_broken_bundle entry_1) = None).
Proof.
  assert (Hp : process_entry run_broken_bundle entry_1 = Pushed item_half_used None)
    by (vm_compute; reflexivity).
  split; [exact Hp|]. split; [reflexivity|].
  apply (subItems_present_iff run_broken_bundle entry_1 item_half_used None Hp).
  reflexivity.
Defined.

(** X19 on a sample run. *)
Lemma scaled_waste_bounds_witness :
  outcome_item (process_entry run_compressed entry_1) = Some item_compressed
  /\ (25000 <= 100000)%N
  /\ num_le (Item.wastedBytes item_compressed) (num_of_N 90000) = true
  /\ num_le (Item.totalBytes item_compressed) (num_of_N 100000) = true.
Proof.
  assert (H : outcome_item (process_entry run_compressed entry_1) = Some item_compressed)
    by (vm_compute; reflexivity).
  assert (Hle : (25000 <= 100000)%N) by (vm_compute; discriminate).
  split; [exact H|]. split; [exact Hle|].
  destruct (scaled_waste_bounds run_compressed entry_1 item_compressed H)
    as (script & nr & Hs & Hn & Hshrink & _).
  assert (En : nr = 25000%N) by (vm_compute in Hs; injection Hs as <-; vm_compute in Hn; now injection Hn as <-).
  subst nr. apply Hshrink. exact Hle.
Defined.

(** X20 on a sample run. *)
Lemma one_group_per_entity_witness :
  In (Some acme, group_acme) (byEntity (final_state run_entities))
  /\ Map_get (byEntity (final_state run_entities)) (Some acme) = Some group_acme.
Proof.
  assert (H : In (Some acme, group_acme) (byEntity (final_state run_entities)))
    by (left; vm_compute; reflexivity).
  split; [exact H|].
  exact (proj2 (one_group_per_entity run_entities) _ _ H).
Defined.
